(** * dbus-python: the [Bus] class of [dbus/_dbus.py]

    A shallow embedding of the signal subscription and dispatch code of
    [dbus._dbus.Bus] (constructor with its shared-instance registry,
    [_create_args_dict], [add_signal_receiver], [remove_signal_receiver],
    [_signal_func]) and the properties the specification states about it.

    Python objects are modelled by explicit state passing: a call is a
    function from the state before to an outcome (a returned value or a raised
    exception) and the state after; what was mutated before an exception is
    raised stays mutated, as in Python. *)

From Stdlib Require Import ZArith Ascii String List Lia DecimalString.
From Stdlib Require Import HexadecimalString DecimalPos.
From stdpp Require Import base option list gmap strings.

Local Open Scope Z_scope.

(** ** Python values and builtins *)

Module Py.

(** The values that travel as keyword arguments and as positional arguments
    of a message. Equality never coerces: [VStr "1"] is not [VInt 1]. *)
Inductive pyval : Type :=
| VStr (s : string)
| VInt (n : Z).

#[global] Instance pyval_eq_dec : EqDecision pyval.
Proof. solve_decision. Defined.

(** The exceptions the code raises or lets through. *)
Inductive exn : Type :=
| TypeError (msg : string)
| ValueError (msg : string)
| DBusException (msg : string).

#[global] Instance exn_eq_dec : EqDecision exn.
Proof. solve_decision. Defined.

Inductive outcome (A : Type) : Type :=
| Return (a : A)
| Raise (e : exn).
Arguments Return {A} a.
Arguments Raise {A} e.

(** [s.startswith(p)] *)
Fixpoint startswith (s p : string) : bool :=
  match p, s with
  | EmptyString, _ => true
  | String c p', String d s' => if decide (c = d) then startswith s' p' else false
  | String _ _, EmptyString => false
  end.

(** [s[n:]] *)
Fixpoint slice_from (n : nat) (s : string) : string :=
  match n, s with
  | O, _ => s
  | S n', String _ s' => slice_from n' s'
  | S _, EmptyString => EmptyString
  end.

(** [str.isspace] on one character: space, tab, newline, vertical tab,
    form feed, carriage return. *)
Definition isspace (c : ascii) : bool :=
  let n := nat_of_ascii c in
  (Nat.eqb n 32 || (Nat.leb 9 n && Nat.leb n 13))%bool.

Definition digit (c : ascii) : option Z :=
  let n := Z.of_nat (nat_of_ascii c) in
  if ((48 <=? n) && (n <=? 57))%bool then Some (n - 48) else None.

Fixpoint lstrip (l : list ascii) : list ascii :=
  match l with
  | c :: l' => if isspace c then lstrip l' else l
  | [] => []
  end.

Definition strip (l : list ascii) : list ascii :=
  rev (lstrip (rev (lstrip l))).

(** Value of a run of decimal digits, [None] when a character is not one. *)
Fixpoint digits (acc : Z) (l : list ascii) : option Z :=
  match l with
  | [] => Some acc
  | c :: l' =>
      match digit c with
      | Some d => digits (10 * acc + d) l'
      | None => None
      end
  end.

Definition unsigned_int (l : list ascii) : option Z :=
  match l with
  | [] => None
  | _ :: _ => digits 0 l
  end.

(** [int(s)] on a byte string, base 10, as Python 2 reads it: surrounding
    white space is skipped, one sign is allowed, white space is skipped once
    more after the sign, at least one digit is required and nothing else may
    follow. [None] stands for [ValueError]. *)
Definition int (s : string) : option Z :=
  match strip (list_ascii_of_string s) with
  | c :: l =>
      if decide (c = "-"%char) then Z.opp <$> unsigned_int (lstrip l)
      else if decide (c = "+"%char) then unsigned_int (lstrip l)
      else unsigned_int (c :: l)
  | [] => None
  end.

(** [keywords[k]] when [k in keywords], for a [**keywords] dictionary kept
    as the list of its items in iteration order (the keys of a dictionary
    are distinct). *)
Fixpoint kw_get (keywords : list (string * pyval)) (k : string) : option pyval :=
  match keywords with
  | [] => None
  | (k', v) :: rest => if decide (k' = k) then Some v else kw_get rest k
  end.

End Py.
Export Py.

(** ** Match patterns and the match index ([dbus/matchrules.py]) *)

Module MatchRules.

(** A handler is a reference to a callable; references are compared by
    identity. *)
Definition handler : Type := nat.

(** An inbound message, through its accessors. *)
Record Message : Type := {
  get_type : Z;
  get_interface : option string;
  get_sender : option string;
  get_path : option string;
  get_member : option string;
  get_args_list : list pyval
}.

(** Modelled from the spec: the class [SignalMatchRule] of the missing
    module [dbus/matchrules.py]. The four filter fields are optional (absent
    is a wildcard), [positional_matches] maps an index to the required
    value, [callbacks] keeps insertion order and the two keyword names are
    the attributes [add_signal_receiver] sets. *)
Record SignalMatchRule : Type := {
  signal_name : option string;
  interface : option string;
  sender : option string;
  path : option string;
  positional_matches : option (gmap Z pyval);
  callbacks : list handler;
  sender_keyword : option pyval;
  path_keyword : option pyval
}.

(** Modelled from the spec: the constructor
    [SignalMatchRule(signal_name, interface, sender, path)]; it stores the
    four fields as given, with no callback and no positional constraint. *)
Definition SignalMatchRule_init
    (signal_name interface sender path : option string) : SignalMatchRule :=
  {| signal_name := signal_name; interface := interface;
     sender := sender; path := path;
     positional_matches := None; callbacks := [];
     sender_keyword := None; path_keyword := None |}.

(** Modelled from the spec: [SignalMatchRule.add_args_match]. *)
Definition add_args_match (args_dict : gmap Z pyval) (r : SignalMatchRule)
  : SignalMatchRule :=
  {| signal_name := signal_name r; interface := interface r;
     sender := sender r; path := path r;
     positional_matches := Some args_dict; callbacks := callbacks r;
     sender_keyword := sender_keyword r; path_keyword := path_keyword r |}.

(** Modelled from the spec: [SignalMatchRule.add_handler]; callbacks are
    kept in insertion order. *)
Definition add_handler (h : handler) (r : SignalMatchRule) : SignalMatchRule :=
  {| signal_name := signal_name r; interface := interface r;
     sender := sender r; path := path r;
     positional_matches := positional_matches r;
     callbacks := callbacks r ++ [h];
     sender_keyword := sender_keyword r; path_keyword := path_keyword r |}.

(** [setattr(match_rule, "sender_keyword", v)] and
    [setattr(match_rule, "path_keyword", v)] *)
Definition set_sender_keyword (v : option pyval) (r : SignalMatchRule)
  : SignalMatchRule :=
  {| signal_name := signal_name r; interface := interface r;
     sender := sender r; path := path r;
     positional_matches := positional_matches r; callbacks := callbacks r;
     sender_keyword := v; path_keyword := path_keyword r |}.

Definition set_path_keyword (v : option pyval) (r : SignalMatchRule)
  : SignalMatchRule :=
  {| signal_name := signal_name r; interface := interface r;
     sender := sender r; path := path r;
     positional_matches := positional_matches r; callbacks := callbacks r;
     sender_keyword := sender_keyword r; path_keyword := v |}.

#[global] Instance SignalMatchRule_eq_dec : EqDecision SignalMatchRule.
Proof. solve_decision. Defined.

(** Modelled from the spec: one filter field of the matching predicate;
    absent in the pattern is always satisfied, present requires the probe's
    field to be present and equal. *)
Definition field_ok (p m : option string) : bool :=
  match p with
  | None => true
  | Some v => bool_decide (m = Some v)
  end.

(** Modelled from the spec: one positional constraint of the matching
    predicate; the message has an argument at that index and it is exactly
    the recorded value. *)
Definition arg_ok (args : list pyval) (index : Z) (value : pyval) : bool :=
  ((0 <=? index) && bool_decide (args !! Z.to_nat index = Some value))%bool.

(** Modelled from the spec: all the positional constraints of a pattern. *)
Definition args_ok (pm : option (gmap Z pyval)) (args : list pyval) : bool :=
  match pm with
  | None => true
  | Some d => forallb (fun iv => arg_ok args iv.1 iv.2) (map_to_list d)
  end.

(** Modelled from the spec: the matching predicate of a stored pattern [p]
    against a probe built from a message and the message's positional
    arguments; conjunctive across all fields. *)
Definition matches (p probe : SignalMatchRule) (args : list pyval) : bool :=
  (field_ok (signal_name p) (signal_name probe)
   && field_ok (interface p) (interface probe)
   && field_ok (sender p) (sender probe)
   && field_ok (path p) (path probe)
   && args_ok (positional_matches p) args)%bool.

(** Modelled from the spec: the class [SignalMatchTree] of
    [dbus/matchrules.py], as the sequence of stored patterns in insertion
    order. *)
Definition SignalMatchTree : Type := list SignalMatchRule.

(** Modelled from the spec: [SignalMatchTree.add] inserts unconditionally. *)
Definition tree_add (r : SignalMatchRule) (t : SignalMatchTree) : SignalMatchTree :=
  t ++ [r].

(** Modelled from the spec: equality of the filter fields, by which removal
    finds its entries. *)
Definition same_filter (a b : SignalMatchRule) : bool :=
  bool_decide (signal_name a = signal_name b ∧ interface a = interface b ∧
               sender a = sender b ∧ path a = path b ∧
               positional_matches a = positional_matches b).

(** Modelled from the spec: whether an entry holds a handler of the key. *)
Definition has_any (hs cbs : list handler) : bool :=
  existsb (fun h => bool_decide (h ∈ cbs)) hs.

(** Modelled from the spec: the callbacks of an entry once the handlers of
    the key are taken out. *)
Definition without (hs cbs : list handler) : list handler :=
  filter (fun h => h ∉ hs) cbs.

Definition with_callbacks (cbs : list handler) (r : SignalMatchRule)
  : SignalMatchRule :=
  {| signal_name := signal_name r; interface := interface r;
     sender := sender r; path := path r;
     positional_matches := positional_matches r; callbacks := cbs;
     sender_keyword := sender_keyword r; path_keyword := path_keyword r |}.

(** Modelled from the spec: [SignalMatchTree.remove]. Every entry with the
    key's filter fields is removed; when the key carries a handler only the
    entries holding it lose it, and an entry left without callback is
    pruned. A key that matches nothing changes nothing. *)
Definition tree_remove (key : SignalMatchRule) (t : SignalMatchTree)
  : SignalMatchTree :=
  flat_map
    (fun e =>
       if same_filter e key then
         match callbacks key with
         | [] => []
         | hs =>
             if has_any hs (callbacks e) then
               match without hs (callbacks e) with
               | [] => []
               | cbs => [with_callbacks cbs e]
               end
             else [e]
         end
       else [e])
    t.

(** Modelled from the spec: [find_matches], every stored pattern that
    matches, in insertion order. *)
Definition find_matches (probe : SignalMatchRule) (args : list pyval)
    (t : SignalMatchTree) : list SignalMatchRule :=
  List.filter (fun p => matches p probe args) t.

End MatchRules.
Export MatchRules.

(** ** The collaborators of [Bus] *)

(** What [_dbus_bindings] provides: its constants, and the behaviour of the
    transport. The C extension is outside the Python sources, so its constants
    and the answers of the transport are taken as given. *)
Class Bindings : Type := {
  BUS_SESSION : Z;
  BUS_SYSTEM : Z;
  BUS_STARTER : Z;
  MESSAGE_TYPE_SIGNAL : Z;
  HANDLER_RESULT_NOT_YET_HANDLED : Z;
  (** [bus_get(bus_type, private)]: a connection handle, or an exception. *)
  bus_get : Z -> bool -> outcome nat;
  (** [bus_add_match(connection, rule)], given the rules the daemon already
      holds for the connection: the exception raised when the rule is
      rejected, [None] when it is registered. *)
  bus_add_match : list string -> string -> option exn
}.

(** The bus daemon's [org.freedesktop.DBus.GetNameOwner], reached through a
    proxy object: the unique name of the owner, or an exception when the name
    has no owner. *)
Class NameResolver : Type := {
  GetNameOwner : string -> outcome string
}.

(** The truth value [bool(h)] of the callables handed to the methods: true
    for a plain function, possibly false for an object that defines
    [__nonzero__] or [__len__]. *)
Class Callables : Type := {
  truth_value : handler -> bool
}.

(** [dbus._dbus_mainloop_setup_function], when the attribute is set: called
    with the new bus, it may raise. *)
Class MainLoop : Type := {
  _dbus_mainloop_setup_function : option (nat -> option exn)
}.

(** ** Subscription and dispatch: the methods of a [Bus] instance *)

Module Bus.

(** What a call does that is visible from outside the function, in the
    order it happens. *)
Inductive event : Type :=
| EvGetNameOwner (name : string)
| EvTreeAdd (r : SignalMatchRule)
| EvTreeRemove (key : SignalMatchRule)
| EvTreeExec (probe : SignalMatchRule) (message : Message)
| EvBusAddMatch (rule : string)
| EvCall (h : handler) (args : list pyval) (kwargs : list (pyval * option string)).

(** The state a method of one [Bus] instance works on: the instance's match
    index, the match rules the daemon holds for its connection, and the
    events so far. *)
Record world : Type := {
  _match_rule_tree : SignalMatchTree;
  daemon_matches : list string;
  trace : list event
}.

Definition emit (e : event) (w : world) : world :=
  {| _match_rule_tree := _match_rule_tree w;
     daemon_matches := daemon_matches w;
     trace := trace w ++ [e] |}.

Definition set_tree (t : SignalMatchTree) (w : world) : world :=
  {| _match_rule_tree := t;
     daemon_matches := daemon_matches w;
     trace := trace w |}.

Definition set_daemon_matches (d : list string) (w : world) : world :=
  {| _match_rule_tree := _match_rule_tree w;
     daemon_matches := d;
     trace := trace w |}.

(** A method call: the outcome and the state after. A raised exception
    keeps what was mutated before it. *)
Definition M (A : Type) : Type := world -> outcome A * world.

#[global] Instance M_ret : MRet M := fun A a w => (Return a, w).

#[global] Instance M_bind : MBind M := fun A B f m w =>
  match m w with
  | (Return a, w') => f a w'
  | (Raise e, w') => (Raise e, w')
  end.

Definition lift {A : Type} (o : outcome A) : M A := fun w => (o, w).

(** [bool(d)] for a value that is [None] or a dictionary. *)
Definition dict_truth (args_dict : option (gmap Z pyval)) : bool :=
  match args_dict with
  | Some d => negb (bool_decide (d = ∅))
  | None => false
  end.

(** The body of the loop of [_create_args_dict], over the items of
    [keywords] in iteration order. *)
Fixpoint _create_args_dict_loop (items : list (string * pyval))
    (args_dict : option (gmap Z pyval)) : outcome (option (gmap Z pyval)) :=
  match items with
  | [] => Return args_dict
  | (key, value) :: rest =>
      if startswith key "arg" then
        let snum := slice_from 3 key in
        match int snum with
        | Some num =>
            let d := if dict_truth args_dict then default ∅ args_dict else ∅ in
            _create_args_dict_loop rest (Some (<[num := value]> d))
        | None => Raise (TypeError ("Invalid arg index " +:+ snum))
        end
      else if bool_decide (key = "sender_keyword" ∨ key = "path_keyword") then
        _create_args_dict_loop rest args_dict
      else Raise (TypeError ("Unknown keyword " +:+ key))
  end.

(** [Bus._create_args_dict] *)
Definition _create_args_dict (keywords : list (string * pyval))
  : outcome (option (gmap Z pyval)) :=
  _create_args_dict_loop keywords None.

(** [named_service and named_service[0] != ':'] *)
Definition is_well_known (named_service : option string) : bool :=
  match named_service with
  | Some (String c _) => negb (bool_decide (c = ":"%char))
  | Some EmptyString => false
  | None => false
  end.

(** [str(v)], as the [%s] conversion gives it. *)
Definition str (v : pyval) : string :=
  match v with
  | VStr s => s
  | VInt n => DecimalString.NilZero.string_of_int (Z.to_int n)
  end.

(** Modelled from the spec: one [key='value'] pair of the rule text. *)
Definition repr_field (key : string) (v : option string) : string :=
  match v with
  | Some s => "," +:+ key +:+ "='" +:+ s +:+ "'"
  | None => ""
  end.

(** Modelled from the spec: the [argN='value'] pairs of the rule text. *)
Definition repr_args (pm : option (gmap Z pyval)) : string :=
  match pm with
  | Some d =>
      foldr (fun iv acc => ",arg" +:+ str (VInt iv.1) +:+ "='" +:+ str iv.2 +:+ "'" +:+ acc)
            "" (map_to_list d)
  | None => ""
  end.

(** Modelled from the spec: [SignalMatchRule.__repr__], the text of the
    daemon match rule: [type='signal'] followed by the pairs for
    interface, member, sender, path and the positional constraints, a
    wildcard field being left out. *)
Definition repr (r : SignalMatchRule) : string :=
  "type='signal'" +:+ repr_field "interface" (interface r)
    +:+ repr_field "member" (signal_name r)
    +:+ repr_field "sender" (sender r)
    +:+ repr_field "path" (path r)
    +:+ repr_args (positional_matches r).

(** Modelled from the spec: the keyword arguments a callback of pattern [p]
    receives besides the positional ones, the sender and the path of the
    message under the names the pattern asked for. *)
Definition call_kwargs (p : SignalMatchRule) (message : Message)
  : list (pyval * option string) :=
  match sender_keyword p with Some k => [(k, get_sender message)] | None => [] end
  ++ match path_keyword p with Some k => [(k, get_path message)] | None => [] end.

(** Modelled from the spec: the invocations of the callbacks of one matched
    pattern, in registration order. *)
Definition calls_of (p : SignalMatchRule) (message : Message) : list event :=
  map (fun h => EvCall h (get_args_list message) (call_kwargs p message))
      (callbacks p).

Section Methods.
Context `{Bindings} `{NameResolver} `{Callables}.

(** [self._match_rule_tree.add(match_rule)] *)
Definition tree_add_m (match_rule : SignalMatchRule) : M unit := fun w =>
  (Return tt, set_tree (tree_add match_rule (_match_rule_tree w))
                       (emit (EvTreeAdd match_rule) w)).

(** [self._match_rule_tree.remove(match_rule)] *)
Definition tree_remove_m (match_rule : SignalMatchRule) : M unit := fun w =>
  (Return tt, set_tree (tree_remove match_rule (_match_rule_tree w))
                       (emit (EvTreeRemove match_rule) w)).

(** Modelled from the spec: [SignalMatchTree.exec_matches] of the missing
    module [dbus/matchrules.py]: the stored patterns that match the probe
    are found, and each callback of each of them is invoked, in the order
    stored. *)
Definition tree_exec_matches_m (probe : SignalMatchRule) (message : Message)
  : M unit := fun w =>
  let found := find_matches probe (get_args_list message) (_match_rule_tree w) in
  (Return tt,
   {| _match_rule_tree := _match_rule_tree w;
      daemon_matches := daemon_matches w;
      trace := trace w ++ [EvTreeExec probe message]
                 ++ flat_map (fun p => calls_of p message) found |}).

(** [_dbus_bindings.bus_add_match(self._connection, rule)] *)
Definition bus_add_match_m (rule : string) : M unit := fun w =>
  let w' := emit (EvBusAddMatch rule) w in
  match bus_add_match (daemon_matches w) rule with
  | Some e => (Raise e, w')
  | None => (Return tt, set_daemon_matches (daemon_matches w ++ [rule]) w')
  end.

(** [bus_object.GetNameOwner(named_service, dbus_interface='org.freedesktop.DBus')] *)
Definition GetNameOwner_m (named_service : string) : M string := fun w =>
  (GetNameOwner named_service, emit (EvGetNameOwner named_service) w).

(** The resolution step, the same three lines in [add_signal_receiver] and
    in [remove_signal_receiver]: the value of [named_service] after them. *)
Definition resolve (named_service : option string) : M (option string) :=
  match named_service with
  | Some name =>
      if is_well_known named_service then
        owner ← GetNameOwner_m name;
        mret (Some owner)
      else mret named_service
  | None => mret None
  end.

(** [Bus.add_signal_receiver] *)
Definition add_signal_receiver (handler_function : handler)
    (signal_name dbus_interface named_service path : option string)
    (keywords : list (string * pyval)) : M unit :=
  args_dict ← lift (_create_args_dict keywords);
  named_service ← resolve named_service;
  let match_rule :=
    SignalMatchRule_init signal_name dbus_interface named_service path in
  let match_rule := set_sender_keyword (kw_get keywords "sender_keyword") match_rule in
  let match_rule := set_path_keyword (kw_get keywords "path_keyword") match_rule in
  let match_rule :=
    if dict_truth args_dict
    then add_args_match (default ∅ args_dict) match_rule
    else match_rule in
  let match_rule := add_handler handler_function match_rule in
  tree_add_m match_rule;;
  bus_add_match_m (repr match_rule).

(** [Bus.remove_signal_receiver] *)
Definition remove_signal_receiver (handler_function : option handler)
    (signal_name dbus_interface named_service path : option string)
    (keywords : list (string * pyval)) : M unit :=
  args_dict ← lift (_create_args_dict keywords);
  named_service ← resolve named_service;
  let match_rule :=
    SignalMatchRule_init signal_name dbus_interface named_service path in
  let match_rule :=
    if dict_truth args_dict
    then add_args_match (default ∅ args_dict) match_rule
    else match_rule in
  let match_rule :=
    match handler_function with
    | Some h => if truth_value h then add_handler h match_rule else match_rule
    | None => match_rule
    end in
  tree_remove_m match_rule.

(** [Bus._signal_func]; [None] is Python's implicit return value. *)
Definition _signal_func (message : Message) : M (option Z) :=
  if decide (get_type message ≠ MESSAGE_TYPE_SIGNAL) then
    mret (Some HANDLER_RESULT_NOT_YET_HANDLED)
  else
    let dbus_interface := get_interface message in
    let named_service := get_sender message in
    let path := get_path message in
    let signal_name := get_member message in
    let match_rule :=
      SignalMatchRule_init signal_name dbus_interface named_service path in
    tree_exec_matches_m match_rule message;;
    mret None.

End Methods.

End Bus.

(** ** Construction: [Bus.__new__] and the shared-instance registry *)

Module BusClass.

(** The three classes [Bus.__new__] instantiates. *)
Inductive subclass : Type := SessionBus | SystemBus | StarterBus.

(** A bus object as [Bus.__new__] leaves it ([_bus_names] starts empty and
    is not read by the code modelled here; the filter added to the connection
    is always the object's own [_signal_func]). *)
Record BusObject : Type := {
  _class : subclass;
  _bus_type : Z;
  _match_rule_tree : SignalMatchTree;
  _connection : nat
}.

(** The process-wide state construction works on. Objects are named by
    their identity. [_shared_instances] is the class attribute, a
    [WeakValueDictionary]: an entry lasts as long as its object is alive.
    [bus_get_calls] records the transport connections asked for. *)
Record process : Type := {
  _shared_instances : gmap Z nat;
  heap : gmap nat BusObject;
  next_id : nat;
  bus_get_calls : list (Z * bool)
}.

(** A failed [assert]. *)
Inductive assertion : Type := AssertionError (msg : string).

(** [ '%#x' % n ] *)
Definition hex (n : nat) : string :=
  "0x" +:+ HexadecimalString.NilZero.string_of_uint (Nat.to_hex_uint n).

Definition initial : process :=
  {| _shared_instances := ∅; heap := ∅; next_id := 0%nat; bus_get_calls := [] |}.

Section New.
Context `{Bindings} `{MainLoop}.

(** The [if]/[elif] chain of [Bus.__new__] that picks the class. *)
Definition subclass_of (bus_type : Z) : option subclass :=
  if decide (bus_type = BUS_SESSION) then Some SessionBus
  else if decide (bus_type = BUS_SYSTEM) then Some SystemBus
  else if decide (bus_type = BUS_STARTER) then Some StarterBus
  else None.

(** [Bus.__new__(cls, bus_type, use_default_mainloop, private)]: the
    identity of the returned object, or the exception raised. *)
Definition Bus_new (bus_type : Z) (use_default_mainloop private : bool)
    (p : process) : outcome nat * process :=
  match (if negb private then _shared_instances p !! bus_type else None) with
  | Some shared => (Return shared, p)
  | None =>
      match subclass_of bus_type with
      | None =>
          (Raise (ValueError ("invalid bus_type " +:+ Bus.str (VInt bus_type))), p)
      | Some subclass =>
          (* bus = object.__new__(subclass) *)
          let bus := next_id p in
          let p1 :=
            {| _shared_instances := _shared_instances p; heap := heap p;
               next_id := S bus;
               bus_get_calls := bus_get_calls p ++ [(bus_type, private)] |} in
          match bus_get bus_type private with
          | Raise e => (Raise e, p1)
          | Return connection =>
              let obj :=
                {| _class := subclass; _bus_type := bus_type;
                   _match_rule_tree := []; _connection := connection |} in
              let p2 :=
                {| _shared_instances := _shared_instances p1;
                   heap := <[bus := obj]> (heap p1);
                   next_id := next_id p1;
                   bus_get_calls := bus_get_calls p1 |} in
              let func :=
                if use_default_mainloop then _dbus_mainloop_setup_function
                else None in
              match func ≫= (fun f => f bus) with
              | Some e => (Raise e, p2)
              | None =>
                  if negb private then
                    (Return bus,
                     {| _shared_instances := <[bus_type := bus]> (_shared_instances p2);
                        heap := heap p2; next_id := next_id p2;
                        bus_get_calls := bus_get_calls p2 |})
                  else (Return bus, p2)
              end
          end
      end
  end.

(** [SystemBus.__new__], [SessionBus.__new__], [StarterBus.__new__] *)
Definition SystemBus_new (use_default_mainloop private : bool) :=
  Bus_new BUS_SYSTEM use_default_mainloop private.
Definition SessionBus_new (use_default_mainloop private : bool) :=
  Bus_new BUS_SESSION use_default_mainloop private.
Definition StarterBus_new (use_default_mainloop private : bool) :=
  Bus_new BUS_STARTER use_default_mainloop private.

(** [Bus.get_session], [Bus.get_system], [Bus.get_starter]: the static
    methods call the class of their bus with [private] alone, so that
    [use_default_mainloop] takes its default [True]. *)
Definition get_session (private : bool) := SessionBus_new true private.
Definition get_system (private : bool) := SystemBus_new true private.
Definition get_starter (private : bool) := StarterBus_new true private.

(** [Bus.__repr__] of the object with identity [self]: the text, or the
    failed assertion of the last branch. *)
Definition Bus_repr (self : nat) (obj : BusObject) : assertion + string :=
  let name :=
    if decide (_bus_type obj = BUS_SESSION) then Some "SESSION"
    else if decide (_bus_type obj = BUS_SYSTEM) then Some "SYSTEM"
    else if decide (_bus_type obj = BUS_STARTER) then Some "STARTER"
    else None in
  match name with
  | Some name => inr ("<dbus.Bus on " +:+ name +:+ " at " +:+ hex self +:+ ">")
  | None => inl (AssertionError "Unable to represent unknown bus type.")
  end.

(** The object [o] dies: the weak dictionary drops the entries that hold
    it. *)
Definition collect (o : nat) (p : process) : process :=
  {| _shared_instances := filter (fun kv => kv.2 ≠ o) (_shared_instances p);
     heap := delete o (heap p);
     next_id := next_id p;
     bus_get_calls := bus_get_calls p |}.

(** What happens to the registry over the life of the process. *)
Inductive action : Type :=
| New (bus_type : Z) (use_default_mainloop private : bool)
| Collect (o : nat).

Definition run_action (p : process) (a : action) : process :=
  match a with
  | New bus_type use_default_mainloop private =>
      (Bus_new bus_type use_default_mainloop private p).2
  | Collect o => collect o p
  end.

Definition run (l : list action) (p : process) : process :=
  fold_left run_action l p.

(** Every registered object has been allocated. *)
Definition allocated (p : process) : Prop :=
  ∀ k o, _shared_instances p !! k = Some o → (o < next_id p)%nat.

(** Only the three bus types are keys of the registry. *)
Definition keys_valid (p : process) : Prop :=
  ∀ k o, _shared_instances p !! k = Some o → is_Some (subclass_of k).

(** The object [b] exists and the registry does not hold it. *)
Definition unshared (b : nat) (p : process) : Prop :=
  (b < next_id p)%nat ∧ ∀ k, _shared_instances p !! k ≠ Some b.

(** Every live object has been allocated. *)
Definition heap_allocated (p : process) : Prop :=
  ∀ o obj, heap p !! o = Some obj → (o < next_id p)%nat.

(** Every live object has the class that goes with its bus type. *)
Definition heap_typed (p : process) : Prop :=
  ∀ o obj, heap p !! o = Some obj → subclass_of (_bus_type obj) = Some (_class obj).

(** The instance shared for a bus type is a live object of that type. *)
Definition shared_typed (p : process) : Prop :=
  ∀ k o, _shared_instances p !! k = Some o →
    ∃ obj, heap p !! o = Some obj ∧ _bus_type obj = k.

Definition well_formed (p : process) : Prop :=
  allocated p ∧ heap_allocated p ∧ heap_typed p ∧ shared_typed p.

End New.

End BusClass.

(** ** Sequences of subscribe and unsubscribe calls *)

Module Session.
Import Bus.

Inductive call : Type :=
| Subscribe (handler_function : handler)
    (signal_name dbus_interface named_service path : option string)
    (keywords : list (string * pyval))
| Unsubscribe (handler_function : option handler)
    (signal_name dbus_interface named_service path : option string)
    (keywords : list (string * pyval)).

Section Calls.
Context `{Bindings} `{NameResolver} `{Callables}.

Definition run_call (c : call) : M unit :=
  match c with
  | Subscribe h sn di ns p kw => add_signal_receiver h sn di ns p kw
  | Unsubscribe h sn di ns p kw => remove_signal_receiver h sn di ns p kw
  end.

(** The state after the calls, made one after the other; a caller that
    catches an exception goes on with the state the failed call left. *)
Fixpoint run_calls (l : list call) (w : world) : world :=
  match l with
  | [] => w
  | c :: l' => run_calls l' (run_call c w).2
  end.

Definition returned {A : Type} (r : outcome A * world) : bool :=
  match r.1 with Return _ => true | Raise _ => false end.

(** How many of the calls are subscriptions that returned normally. *)
Fixpoint subscribed (l : list call) (w : world) : nat :=
  match l with
  | [] => 0%nat
  | c :: l' =>
      ((match c with
        | Subscribe _ _ _ _ _ _ => if returned (run_call c w) then 1 else 0
        | Unsubscribe _ _ _ _ _ _ => 0
        end) + subscribed l' (run_call c w).2)%nat
  end.
End Calls.

(** The names [GetNameOwner] was asked for among the events. *)
Definition resolutions (tr : list event) : list string :=
  flat_map (fun e => match e with EvGetNameOwner s => [s] | _ => [] end) tr.

(** The calls to [bus_add_match] among the events. *)
Definition bus_add_match_calls (tr : list event) : list string :=
  flat_map (fun e => match e with EvBusAddMatch s => [s] | _ => [] end) tr.

End Session.

(** ** Sample collaborators *)

Module Sample.
Import Bus.

(** The constants are those of libdbus; every connection succeeds and the
    daemon accepts every match rule. *)
Definition accepting : Bindings :=
  {| BUS_SESSION := 0; BUS_SYSTEM := 1; BUS_STARTER := 2;
     MESSAGE_TYPE_SIGNAL := 4; HANDLER_RESULT_NOT_YET_HANDLED := 1;
     bus_get := fun _ _ => Return 7%nat;
     bus_add_match := fun _ _ => None |}.

(** The same, with a transport that rejects every match rule. *)
Definition rejecting : Bindings :=
  {| BUS_SESSION := 0; BUS_SYSTEM := 1; BUS_STARTER := 2;
     MESSAGE_TYPE_SIGNAL := 4; HANDLER_RESULT_NOT_YET_HANDLED := 1;
     bus_get := fun _ _ => Return 7%nat;
     bus_add_match := fun _ _ => Some (DBusException "MatchRuleInvalid") |}.

(** A daemon on which [org.example.Bar] is owned by [:1.5] and no other
    name has an owner. *)
Definition resolver : NameResolver :=
  {| GetNameOwner := fun name =>
       if decide (name = "org.example.Bar") then Return ":1.5"
       else Raise (DBusException "NameHasNoOwner") |}.

Definition no_mainloop : MainLoop :=
  {| _dbus_mainloop_setup_function := None |}.

(** Every handler is a plain function. *)
Definition plain_functions : Callables :=
  {| truth_value := fun _ => true |}.

(** Handler 2 is a callable object whose truth value is false. *)
Definition falsy_two : Callables :=
  {| truth_value := fun h => negb (Nat.eqb h 2) |}.

(** A main-loop setup function that always raises. *)
Definition failing_mainloop : MainLoop :=
  {| _dbus_mainloop_setup_function :=
       Some (fun _ => Some (DBusException "no main loop")) |}.

Definition empty_world : world :=
  {| _match_rule_tree := []; daemon_matches := []; trace := [] |}.

Definition method_call : Message :=
  {| get_type := 1; get_interface := Some "org.example.Iface";
     get_sender := Some ":1.5"; get_path := Some "/org/example";
     get_member := Some "Ping"; get_args_list := [] |}.

Definition signal : Message :=
  {| get_type := 4; get_interface := Some "org.example.Iface";
     get_sender := Some ":1.5"; get_path := Some "/org/example";
     get_member := Some "Changed"; get_args_list := [VStr "x"; VInt 1] |}.

(** Two subscriptions: handlers 1 and 2 on [Changed] from [:1.5] with
    first argument [x], handler 3 on [Renamed]. *)
Definition on_changed : SignalMatchRule :=
  add_handler 2%nat
    (add_handler 1%nat
       (add_args_match {[ 0 := VStr "x" ]}
          (SignalMatchRule_init (Some "Changed") None (Some ":1.5") None))).

Definition on_renamed : SignalMatchRule :=
  add_handler 3%nat (SignalMatchRule_init (Some "Renamed") None None None).

Definition subscribed_world : world :=
  {| _match_rule_tree := [on_changed; on_renamed];
     daemon_matches := [repr on_changed; repr on_renamed];
     trace := [] |}.

End Sample.

(** ** Vocabulary of the properties *)

Module Props.
Import Bus.

(** A keyword [_create_args_dict] knows nothing about. *)
Definition unknown_keyword (key : string) : Prop :=
  startswith key "arg" = false ∧ key ≠ "sender_keyword" ∧ key ≠ "path_keyword".

(** A keyword of the form [arg] followed by something [int] refuses. *)
Definition malformed_arg (key : string) : Prop :=
  startswith key "arg" = true ∧ int (slice_from 3 key) = None.

(** A keyword [_create_args_dict] lets through. *)
Definition acceptable_keyword (key : string) : Prop :=
  if startswith key "arg" then is_Some (int (slice_from 3 key))
  else key = "sender_keyword" ∨ key = "path_keyword".

(** The positional constraints among the keywords, in iteration order: the
    index read from the key, and the value. *)
Definition arg_items (keywords : list (string * pyval)) : list (Z * pyval) :=
  omap (fun kv =>
          if startswith kv.1 "arg"
          then (fun num => (num, kv.2)) <$> int (slice_from 3 kv.1)
          else None)
       keywords.

(** The keywords without [sender_keyword] and [path_keyword]. *)
Definition without_binding_keywords (keywords : list (string * pyval))
  : list (string * pyval) :=
  filter (fun kv => ¬ (kv.1 = "sender_keyword" ∨ kv.1 = "path_keyword")) keywords.

(** The value of a decimal numeral read from the left, [acc] being the
    value of the digits already read. *)
Fixpoint decimal_value (acc : Z) (d : Decimal.uint) : Z :=
  match d with
  | Decimal.Nil => acc
  | Decimal.D0 d => decimal_value (10 * acc) d
  | Decimal.D1 d => decimal_value (10 * acc + 1) d
  | Decimal.D2 d => decimal_value (10 * acc + 2) d
  | Decimal.D3 d => decimal_value (10 * acc + 3) d
  | Decimal.D4 d => decimal_value (10 * acc + 4) d
  | Decimal.D5 d => decimal_value (10 * acc + 5) d
  | Decimal.D6 d => decimal_value (10 * acc + 6) d
  | Decimal.D7 d => decimal_value (10 * acc + 7) d
  | Decimal.D8 d => decimal_value (10 * acc + 8) d
  | Decimal.D9 d => decimal_value (10 * acc + 9) d
  end.

(** The pattern [add_signal_receiver] builds from its arguments once the
    sender is resolved, described field by field. *)
Definition subscription_of (r : SignalMatchRule) (h : handler)
    (sn di ns p : option string) (keywords : list (string * pyval))
    (args_dict : option (gmap Z pyval)) : Prop :=
  signal_name r = sn ∧ interface r = di ∧ sender r = ns ∧ path r = p ∧
  positional_matches r = (if dict_truth args_dict then args_dict else None) ∧
  callbacks r = [h] ∧
  sender_keyword r = kw_get keywords "sender_keyword" ∧
  path_keyword r = kw_get keywords "path_keyword".

(** The callbacks of the key [remove_signal_receiver] builds: the handler
    given, when there is one and it is true. *)
Definition removal_callbacks `{Callables} (h : option handler) : list handler :=
  match h with
  | Some f => if truth_value f then [f] else []
  | None => []
  end.

(** The removal key [remove_signal_receiver] builds. *)
Definition removal_key_of `{Callables} (r : SignalMatchRule) (h : option handler)
    (sn di ns p : option string) (args_dict : option (gmap Z pyval)) : Prop :=
  signal_name r = sn ∧ interface r = di ∧ sender r = ns ∧ path r = p ∧
  positional_matches r = (if dict_truth args_dict then args_dict else None) ∧
  callbacks r = removal_callbacks h.

End Props.

(** * Properties *)

Import Bus Session Props.

(** Case analysis along the branches of [Bus.__new__]. *)
Ltac new_cases :=
  unfold BusClass.Bus_new;
  repeat match goal with
    | |- context [match ?x with _ => _ end] => destruct x eqn:?
    end; simpl in *.

Section CreateArgsDict.

Lemma create_args_dict_loop_rejects items acc key :
  key ∈ items.*1 → malformed_arg key ∨ unknown_keyword key →
  ∃ msg, _create_args_dict_loop items acc = Raise (TypeError msg).
Proof.
  intros Hin Hbad. revert acc.
  induction items as [|[k v] rest IH]; intros acc.
  - by apply elem_of_nil in Hin.
  - assert (k = key ∨ key ∈ rest.*1) as [->|Hrest].
    { rewrite fmap_cons in Hin. apply elem_of_cons in Hin as [->|?]; auto. }
    + cbn [_create_args_dict_loop]. destruct Hbad as [[Harg Hint]|(Harg & Hs & Hp)].
      * rewrite Harg, Hint. eauto.
      * rewrite Harg. rewrite bool_decide_eq_false_2 by tauto. eauto.
    + specialize (IH Hrest). cbn [_create_args_dict_loop].
      destruct (startswith k "arg").
      * destruct (int _); [apply IH | eauto].
      * case_bool_decide; [apply IH | eauto].
Qed.

Lemma create_args_dict_rejects keywords key :
  key ∈ keywords.*1 → malformed_arg key ∨ unknown_keyword key →
  ∃ msg, _create_args_dict keywords = Raise (TypeError msg).
Proof. apply create_args_dict_loop_rejects. Qed.

(** [_create_args_dict] raises nothing but [TypeError]. *)
Lemma create_args_dict_loop_raises items acc e :
  _create_args_dict_loop items acc = Raise e → ∃ msg, e = TypeError msg.
Proof.
  revert acc. induction items as [|[k v] rest IH]; intros acc; cbn [_create_args_dict_loop]; [done|].
  destruct (startswith k "arg").
  - destruct (int _); [apply IH | intros [= <-]; eauto].
  - case_bool_decide; [apply IH | intros [= <-]; eauto].
Qed.

Lemma create_args_dict_loop_app pre post acc :
  _create_args_dict_loop (pre ++ post) acc =
    match _create_args_dict_loop pre acc with
    | Return acc' => _create_args_dict_loop post acc'
    | Raise e => Raise e
    end.
Proof.
  revert acc. induction pre as [|[k v] pre IH]; intros acc; [done|].
  cbn [_create_args_dict_loop app].
  destruct (startswith k "arg").
  - destruct (int _); [apply IH | done].
  - case_bool_decide; [apply IH | done].
Qed.

Lemma dict_truth_lookup (m : gmap Z pyval) num value :
  m !! num = Some value → dict_truth (Some m) = true.
Proof.
  intros Hm. simpl. rewrite bool_decide_eq_false_2; [done|].
  intros ->. by rewrite lookup_empty in Hm.
Qed.

(** A recorded index keeps its value through the rest of the loop when no
    later keyword names the same index. *)
Lemma create_args_dict_loop_keeps post (m : gmap Z pyval) num value d :
  m !! num = Some value →
  (∀ k v, (k, v) ∈ post → startswith k "arg" = true →
     int (slice_from 3 k) ≠ Some num) →
  _create_args_dict_loop post (Some m) = Return d →
  ∃ m', d = Some m' ∧ m' !! num = Some value.
Proof.
  revert m. induction post as [|[k v] post IH]; intros m Hm Hpost.
  - intros [= <-]. eauto.
  - cbn [_create_args_dict_loop].
    assert (∀ k' v', (k', v') ∈ post → startswith k' "arg" = true →
              int (slice_from 3 k') ≠ Some num) as Hpost'.
    { intros k' v' Hin. apply (Hpost k' v'). by apply list_elem_of_further. }
    destruct (startswith k "arg") eqn:Harg.
    + destruct (int (slice_from 3 k)) as [n|] eqn:Hint; [|done].
      rewrite (dict_truth_lookup m num value Hm). apply IH; [|done].
      rewrite lookup_insert_ne; [done|]. intros ->.
      by apply (Hpost k v (list_elem_of_here _ _)).
    + case_bool_decide; [by apply IH | done].
Qed.

(** When [_create_args_dict] returns, a keyword [arg] followed by an
    integer has its value recorded at that index, unless a keyword met later
    in the iteration names the same index. *)
Lemma create_args_dict_records pre key value post num d :
  startswith key "arg" = true →
  int (slice_from 3 key) = Some num →
  (∀ k v, (k, v) ∈ post → startswith k "arg" = true →
     int (slice_from 3 k) ≠ Some num) →
  _create_args_dict (pre ++ (key, value) :: post) = Return d →
  ∃ m, d = Some m ∧ m !! num = Some value.
Proof.
  intros Harg Hint Hpost. unfold _create_args_dict.
  rewrite create_args_dict_loop_app.
  destruct (_create_args_dict_loop pre None) as [acc|e]; [|done].
  cbn [_create_args_dict_loop]. rewrite Harg, Hint.
  apply create_args_dict_loop_keeps; [|done]. by rewrite lookup_insert_eq.
Qed.

End CreateArgsDict.

Section Receivers.
Context `{Bindings} `{NameResolver} `{Callables}.

Lemma add_signal_receiver_bad_keywords h sn di ns p keywords e w :
  _create_args_dict keywords = Raise e →
  add_signal_receiver h sn di ns p keywords w = (Raise e, w).
Proof.
  intros Hk. unfold add_signal_receiver, mbind, M_bind, lift. by rewrite Hk.
Qed.

Lemma remove_signal_receiver_bad_keywords h sn di ns p keywords e w :
  _create_args_dict keywords = Raise e →
  remove_signal_receiver h sn di ns p keywords w = (Raise e, w).
Proof.
  intros Hk. unfold remove_signal_receiver, mbind, M_bind, lift. by rewrite Hk.
Qed.

Lemma resolve_not_well_known ns w :
  is_well_known ns = false → resolve ns w = (Return ns, w).
Proof. intros Hwk. unfold resolve. destruct ns; [by rewrite Hwk | done]. Qed.

Lemma resolve_well_known s w :
  is_well_known (Some s) = true →
  resolve (Some s) w =
    match GetNameOwner s with
    | Return owner => (Return (Some owner), emit (EvGetNameOwner s) w)
    | Raise e => (Raise e, emit (EvGetNameOwner s) w)
    end.
Proof.
  intros Hwk. unfold resolve. rewrite Hwk.
  unfold mbind, M_bind, GetNameOwner_m. simpl.
  by destruct (GetNameOwner s).
Qed.

(** Resolution touches neither the match index nor the daemon's rules. *)
Lemma resolve_frame ns w :
  _match_rule_tree (resolve ns w).2 = _match_rule_tree w ∧
  daemon_matches (resolve ns w).2 = daemon_matches w ∧
  ∃ names, trace (resolve ns w).2 = trace w ++ map EvGetNameOwner names.
Proof.
  destruct (is_well_known ns) eqn:Hwk.
  - destruct ns as [s|]; [|done]. rewrite resolve_well_known by done.
    repeat split; try by destruct (GetNameOwner s).
    exists [s]. by destruct (GetNameOwner s).
  - rewrite resolve_not_well_known by done. repeat split.
    exists []. simpl. by rewrite app_nil_r.
Qed.

(** Past keyword checking and resolution, [add_signal_receiver] inserts the
    pattern it built into the match index and then hands its text to the
    transport. *)
Lemma add_signal_receiver_registers h sn di ns p keywords args_dict ns' w w1 :
  _create_args_dict keywords = Return args_dict →
  resolve ns w = (Return ns', w1) →
  ∃ rule, subscription_of rule h sn di ns' p keywords args_dict ∧
    add_signal_receiver h sn di ns p keywords w =
      match bus_add_match (daemon_matches w1) (repr rule) with
      | Some e =>
          (Raise e,
           {| _match_rule_tree := _match_rule_tree w1 ++ [rule];
              daemon_matches := daemon_matches w1;
              trace := trace w1 ++ [EvTreeAdd rule; EvBusAddMatch (repr rule)] |})
      | None =>
          (Return tt,
           {| _match_rule_tree := _match_rule_tree w1 ++ [rule];
              daemon_matches := daemon_matches w1 ++ [repr rule];
              trace := trace w1 ++ [EvTreeAdd rule; EvBusAddMatch (repr rule)] |})
      end.
Proof.
  intros Hk Hr.
  unfold add_signal_receiver, mbind, M_bind, lift. rewrite Hk, Hr.
  match goal with
  | |- context [tree_add_m ?r _] => exists r
  end.
  split; last first.
  - unfold tree_add_m, bus_add_match_m, tree_add, emit, set_tree,
      set_daemon_matches. simpl. rewrite <- !app_assoc. simpl.
    destruct (bus_add_match _ _); reflexivity.
  - repeat split; simpl; try done.
    all: destruct args_dict as [d|]; simpl; try done.
    all: by case_bool_decide.
Qed.

(** Past keyword checking and resolution, [remove_signal_receiver] removes
    by the key it built and does nothing else. *)
Lemma remove_signal_receiver_removes h sn di ns p keywords args_dict ns' w w1 :
  _create_args_dict keywords = Return args_dict →
  resolve ns w = (Return ns', w1) →
  ∃ key, removal_key_of key h sn di ns' p args_dict ∧
    remove_signal_receiver h sn di ns p keywords w =
      (Return tt,
       {| _match_rule_tree := tree_remove key (_match_rule_tree w1);
          daemon_matches := daemon_matches w1;
          trace := trace w1 ++ [EvTreeRemove key] |}).
Proof.
  intros Hk Hr.
  unfold remove_signal_receiver, mbind, M_bind, lift. rewrite Hk, Hr.
  match goal with
  | |- context [tree_remove_m ?r _] => exists r
  end.
  split; last first.
  - unfold tree_remove_m, emit, set_tree. simpl. reflexivity.
  - unfold removal_callbacks. repeat split; simpl.
    all: destruct h as [f|]; simpl; try destruct (truth_value f); simpl; try done.
    all: destruct args_dict as [d|]; simpl; try done.
    all: by case_bool_decide.
Qed.

Lemma resolve_raises_in_add h sn di ns p keywords args_dict e w w1 :
  _create_args_dict keywords = Return args_dict →
  resolve ns w = (Raise e, w1) →
  add_signal_receiver h sn di ns p keywords w = (Raise e, w1).
Proof.
  intros Hk Hr.
  unfold add_signal_receiver, mbind, M_bind, lift. by rewrite Hk, Hr.
Qed.

Lemma resolve_raises_in_remove h sn di ns p keywords args_dict e w w1 :
  _create_args_dict keywords = Return args_dict →
  resolve ns w = (Raise e, w1) →
  remove_signal_receiver h sn di ns p keywords w = (Raise e, w1).
Proof.
  intros Hk Hr.
  unfold remove_signal_receiver, mbind, M_bind, lift. by rewrite Hk, Hr.
Qed.

(** C9. A call to [add_signal_receiver] or [remove_signal_receiver] with a
    keyword that is not [sender_keyword], not [path_keyword] and does not
    start with [arg] raises a [TypeError] and leaves the whole state as it
    was: no name was resolved, no pattern was added or removed, nothing was
    registered with the daemon. *)
Theorem unknown_keyword_raises_TypeError
    (keywords : list (string * pyval)) (key : string)
    (h : handler) (ho : option handler)
    (sn di ns p : option string) (w : world) :
  key ∈ keywords.*1 → unknown_keyword key →
  (∃ msg, add_signal_receiver h sn di ns p keywords w = (Raise (TypeError msg), w)) ∧
  (∃ msg, remove_signal_receiver ho sn di ns p keywords w = (Raise (TypeError msg), w)).
Proof.
  intros Hin Hunk.
  destruct (create_args_dict_rejects keywords key Hin (or_intror Hunk))
    as [msg Hmsg].
  split; exists msg.
  - by apply add_signal_receiver_bad_keywords.
  - by apply remove_signal_receiver_bad_keywords.
Qed.

(** C6. On a message whose type is not the signal type, [_signal_func]
    returns [HANDLER_RESULT_NOT_YET_HANDLED] and the state is untouched: the
    match index is the same and no event (no query of the index, no
    callback) happened. *)
Theorem signal_func_ignores_non_signals (message : Message) (w : world) :
  get_type message ≠ MESSAGE_TYPE_SIGNAL →
  _signal_func message w = (Return (Some HANDLER_RESULT_NOT_YET_HANDLED), w).
Proof.
  intros Hty. unfold _signal_func. by rewrite decide_True.
Qed.

(** C1, as the code has it. Past keyword checking and resolution,
    [add_signal_receiver] first inserts the pattern into the local match
    index and then registers its text with the daemon; when the transport
    rejects the text, its exception is raised, the daemon holds no new rule
    and the pattern stays in the index. *)
Theorem add_signal_receiver_inserts_then_registers
    (h : handler) (sn di ns p ns' : option string)
    (keywords : list (string * pyval)) (args_dict : option (gmap Z pyval))
    (w w1 : world) :
  _create_args_dict keywords = Return args_dict →
  resolve ns w = (Return ns', w1) →
  ∃ rule, subscription_of rule h sn di ns' p keywords args_dict ∧
    let r := add_signal_receiver h sn di ns p keywords w in
    trace r.2 = trace w1 ++ [EvTreeAdd rule; EvBusAddMatch (repr rule)] ∧
    _match_rule_tree r.2 = _match_rule_tree w ++ [rule] ∧
    match bus_add_match (daemon_matches w) (repr rule) with
    | Some e => r.1 = Raise e ∧ daemon_matches r.2 = daemon_matches w
    | None => r.1 = Return () ∧ daemon_matches r.2 = daemon_matches w ++ [repr rule]
    end.
Proof.
  intros Hk Hr.
  destruct (add_signal_receiver_registers h sn di ns p keywords args_dict ns' w w1 Hk Hr)
    as (rule & Hrule & Heq).
  exists rule. split; [done|]. cbv zeta. rewrite Heq. clear Heq.
  destruct (resolve_frame ns w) as (Htree & Hd & _). rewrite Hr in Htree, Hd.
  simpl in Htree, Hd. rewrite Hd, Htree.
  destruct (bus_add_match (daemon_matches w) (repr rule)); simpl; repeat split.
Qed.

(** C2, as the code has it. When [named_service] is a well-known name
    without owner, [add_signal_receiver] fails, inserts no pattern and
    registers no rule; the exception is the one of the name resolution
    whenever the keywords passed [_create_args_dict], and the [TypeError] of
    [_create_args_dict], raised before any resolution, otherwise. *)
Theorem unowned_name_fails_subscribe
    (h : handler) (sn di p : option string) (s : string)
    (keywords : list (string * pyval)) (e : exn) (w : world) :
  is_well_known (Some s) = true →
  GetNameOwner s = Raise e →
  let r := add_signal_receiver h sn di (Some s) p keywords w in
  _match_rule_tree r.2 = _match_rule_tree w ∧
  daemon_matches r.2 = daemon_matches w ∧
  bus_add_match_calls (trace r.2) = bus_add_match_calls (trace w) ∧
  match _create_args_dict keywords with
  | Return _ => r = (Raise e, emit (EvGetNameOwner s) w)
  | Raise e' => r = (Raise e', w)
  end.
Proof.
  intros Hwk Hown. cbv zeta.
  destruct (_create_args_dict keywords) as [d|e'] eqn:Hk.
  - rewrite (resolve_raises_in_add h sn di (Some s) p keywords d e w
               (emit (EvGetNameOwner s) w)); [|done|].
    + repeat split. simpl. unfold bus_add_match_calls.
      rewrite flat_map_app. simpl. by rewrite app_nil_r.
    + rewrite resolve_well_known by done. by rewrite Hown.
  - by rewrite (add_signal_receiver_bad_keywords h sn di (Some s) p keywords e' w).
Qed.

(** C4. When [named_service] is a well-known name (it is not empty and does
    not begin with [:]) that [GetNameOwner] resolves to [u], the pattern
    [add_signal_receiver] inserts and the key [remove_signal_receiver]
    removes by both carry [u] as their sender; [u] is not the alias as soon
    as it is a unique name. *)
Theorem sender_is_resolved_owner
    (h : handler) (ho : option handler) (sn di p : option string) (s u : string)
    (keywords : list (string * pyval)) (args_dict : option (gmap Z pyval))
    (w : world) :
  is_well_known (Some s) = true →
  GetNameOwner s = Return u →
  _create_args_dict keywords = Return args_dict →
  (∃ rule, sender rule = Some u ∧
     let r := add_signal_receiver h sn di (Some s) p keywords w in
     _match_rule_tree r.2 = _match_rule_tree w ++ [rule] ∧
     trace r.2 = trace w ++ [EvGetNameOwner s; EvTreeAdd rule; EvBusAddMatch (repr rule)]) ∧
  (∃ key, sender key = Some u ∧
     remove_signal_receiver ho sn di (Some s) p keywords w =
       (Return (),
        {| _match_rule_tree := tree_remove key (_match_rule_tree w);
           daemon_matches := daemon_matches w;
           trace := trace w ++ [EvGetNameOwner s; EvTreeRemove key] |})) ∧
  (startswith u ":" = true → u ≠ s).
Proof.
  intros Hwk Hown Hk.
  assert (resolve (Some s) w = (Return (Some u), emit (EvGetNameOwner s) w)) as Hr.
  { rewrite resolve_well_known by done. by rewrite Hown. }
  split; [|split].
  - destruct (add_signal_receiver_registers h sn di (Some s) p keywords args_dict
                _ w _ Hk Hr) as (rule & Hrule & Heq).
    exists rule. split; [apply Hrule|]. cbv zeta. rewrite Heq.
    destruct (bus_add_match _ _); simpl; by rewrite <- app_assoc.
  - destruct (remove_signal_receiver_removes ho sn di (Some s) p keywords args_dict
                _ w _ Hk Hr) as (key & Hkey & Heq).
    exists key. split; [apply Hkey|]. rewrite Heq. simpl.
    by rewrite <- app_assoc.
  - intros Hu ->. destruct s as [|c s']; [done|].
    simpl in Hwk, Hu. case_bool_decide; [done|]. by case_decide.
Qed.

(** A name that is already unique, or no name at all, is kept as given and
    no resolution is attempted. *)
Lemma unresolved_sender_kept h sn di ns p keywords args_dict w :
  is_well_known ns = false →
  _create_args_dict keywords = Return args_dict →
  ∃ rule, sender rule = ns ∧
    let r := add_signal_receiver h sn di ns p keywords w in
    _match_rule_tree r.2 = _match_rule_tree w ++ [rule] ∧
    trace r.2 = trace w ++ [EvTreeAdd rule; EvBusAddMatch (repr rule)].
Proof.
  intros Hwk Hk.
  destruct (add_signal_receiver_registers h sn di ns p keywords args_dict
              ns w w Hk (resolve_not_well_known ns w Hwk)) as (rule & Hrule & Heq).
  exists rule. split; [apply Hrule|]. cbv zeta. rewrite Heq.
  by destruct (bus_add_match _ _).
Qed.

(** A keyword [arg] followed by something that is no integer makes the call
    raise [TypeError] with nothing inserted, resolved or registered. *)
Lemma malformed_arg_raises_TypeError keywords key h sn di ns p w :
  key ∈ keywords.*1 → malformed_arg key →
  ∃ msg, add_signal_receiver h sn di ns p keywords w = (Raise (TypeError msg), w).
Proof.
  intros Hin Hbad.
  destruct (create_args_dict_rejects keywords key Hin (or_introl Hbad)) as [msg Hmsg].
  exists msg. by apply add_signal_receiver_bad_keywords.
Qed.

(** C5, at the keyword [arg-1]. The suffix is read as the integer [-1];
    [_create_args_dict] raises nothing and the call goes on as for any other
    index: the pattern that requires the value [v] at index [-1] is inserted
    into the match index and its text is handed to the transport, whose
    answer alone decides how the call ends. *)
Theorem negative_arg_index_accepted
    (h : handler) (sn di p : option string) (v : pyval) (w : world) :
  int (slice_from 3 "arg-1") = Some (-1) ∧
  _create_args_dict [("arg-1", v)] = Return (Some {[ -1 := v ]}) ∧
  let r := add_signal_receiver h sn di None p [("arg-1", v)] w in
  ∃ rule, positional_matches rule = Some {[ -1 := v ]} ∧
    _match_rule_tree r.2 = _match_rule_tree w ++ [rule] ∧
    trace r.2 = trace w ++ [EvTreeAdd rule; EvBusAddMatch (repr rule)] ∧
    r.1 = match bus_add_match (daemon_matches w) (repr rule) with
          | Some e => Raise e
          | None => Return ()
          end.
Proof.
  assert (_create_args_dict [("arg-1", v)] = Return (Some {[ -1 := v ]})) as Hk
    by reflexivity.
  split; [reflexivity|]. split; [exact Hk|]. cbv zeta.
  destruct (add_signal_receiver_registers h sn di None p [("arg-1", v)] _ None w w
              Hk eq_refl) as (rule & Hrule & Heq).
  rewrite Heq. clear Heq.
  assert (positional_matches rule = Some {[ -1 := v ]}) as Hpm.
  { destruct Hrule as (_ & _ & _ & _ & -> & _). simpl.
    rewrite bool_decide_eq_false_2; [done|]. apply insert_non_empty. }
  exists rule. split; [done|].
  by destruct (bus_add_match (daemon_matches w) (repr rule)).
Qed.

Lemma bus_add_match_calls_app (a b : list event) :
  bus_add_match_calls (a ++ b) = bus_add_match_calls a ++ bus_add_match_calls b.
Proof. apply flat_map_app. Qed.

Lemma bus_add_match_calls_GetNameOwner (names : list string) :
  bus_add_match_calls (map EvGetNameOwner names) = [].
Proof. by induction names. Qed.

Lemma resolve_adds_no_match ns w :
  bus_add_match_calls (trace (resolve ns w).2) = bus_add_match_calls (trace w).
Proof.
  destruct (resolve_frame ns w) as (_ & _ & names & ->).
  by rewrite bus_add_match_calls_app, bus_add_match_calls_GetNameOwner, app_nil_r.
Qed.

(** Unsubscribing leaves the daemon's rules alone and calls [bus_add_match]
    not once. *)
Lemma remove_signal_receiver_daemon ho sn di ns p keywords w :
  daemon_matches (remove_signal_receiver ho sn di ns p keywords w).2 = daemon_matches w ∧
  bus_add_match_calls (trace (remove_signal_receiver ho sn di ns p keywords w).2)
    = bus_add_match_calls (trace w).
Proof.
  destruct (resolve_frame ns w) as (_ & Hd & _).
  pose proof (resolve_adds_no_match ns w) as Hc.
  destruct (_create_args_dict keywords) as [d|e] eqn:Hk.
  - destruct (resolve ns w) as [[ns'|e] w1] eqn:Hr; simpl in Hd, Hc.
    + destruct (remove_signal_receiver_removes ho sn di ns p keywords d ns' w w1 Hk Hr)
        as (key & _ & ->). simpl. split; [done|].
      by rewrite bus_add_match_calls_app, app_nil_r.
    + by rewrite (resolve_raises_in_remove ho sn di ns p keywords d e w w1).
  - by rewrite (remove_signal_receiver_bad_keywords ho sn di ns p keywords e w).
Qed.

(** A subscription that returns has added exactly one rule with one call
    to [bus_add_match]; one that raises has added none. *)
Lemma add_signal_receiver_daemon h sn di ns p keywords w :
  if returned (add_signal_receiver h sn di ns p keywords w) then
    ∃ rule,
      daemon_matches (add_signal_receiver h sn di ns p keywords w).2
        = daemon_matches w ++ [rule] ∧
      bus_add_match_calls (trace (add_signal_receiver h sn di ns p keywords w).2)
        = bus_add_match_calls (trace w) ++ [rule]
  else
    daemon_matches (add_signal_receiver h sn di ns p keywords w).2 = daemon_matches w.
Proof.
  destruct (resolve_frame ns w) as (_ & Hd & _).
  pose proof (resolve_adds_no_match ns w) as Hc.
  destruct (_create_args_dict keywords) as [d|e] eqn:Hk.
  - destruct (resolve ns w) as [[ns'|e] w1] eqn:Hr; simpl in Hd, Hc.
    + destruct (add_signal_receiver_registers h sn di ns p keywords d ns' w w1 Hk Hr)
        as (rule & _ & ->).
      destruct (bus_add_match (daemon_matches w1) (repr rule)); unfold returned; simpl.
      * done.
      * exists (repr rule). rewrite Hd. split; [done|].
        rewrite bus_add_match_calls_app, Hc. done.
    + by rewrite (resolve_raises_in_add h sn di ns p keywords d e w w1).
  - by rewrite (add_signal_receiver_bad_keywords h sn di ns p keywords e w).
Qed.

Lemma run_calls_daemon (calls : list call) (w : world) :
  ∃ added, daemon_matches (run_calls calls w) = daemon_matches w ++ added ∧
    length added = subscribed calls w.
Proof.
  revert w. induction calls as [|c calls IH]; intros w.
  - exists []. by rewrite app_nil_r.
  - cbn [run_calls subscribed].
    destruct (IH (run_call c w).2) as (added & -> & <-).
    destruct c as [h sn di ns p kw|ho sn di ns p kw]; cbn [run_call].
    + pose proof (add_signal_receiver_daemon h sn di ns p kw w) as Ha.
      destruct (returned _).
      * destruct Ha as (rule & -> & _). exists (rule :: added).
        by rewrite <- app_assoc.
      * rewrite Ha. by exists added.
    + destruct (remove_signal_receiver_daemon ho sn di ns p kw w) as [-> _].
      by exists added.
Qed.

(** C7. [remove_signal_receiver] never touches the daemon's match rules and
    never calls the transport; a subscription that returns adds exactly one
    rule through one [bus_add_match]; so over any sequence of subscribe and
    unsubscribe calls the daemon's rules only grow: the rules held before are
    a prefix of the rules held after, with one more rule for each
    subscription that returned. *)
Theorem daemon_rules_only_grow (calls : list call) (w : world) :
  (∀ ho sn di ns p keywords w0,
     daemon_matches (remove_signal_receiver ho sn di ns p keywords w0).2
       = daemon_matches w0 ∧
     bus_add_match_calls (trace (remove_signal_receiver ho sn di ns p keywords w0).2)
       = bus_add_match_calls (trace w0)) ∧
  (∀ h sn di ns p keywords w0,
     if returned (add_signal_receiver h sn di ns p keywords w0) then
       ∃ rule,
         daemon_matches (add_signal_receiver h sn di ns p keywords w0).2
           = daemon_matches w0 ++ [rule] ∧
         bus_add_match_calls (trace (add_signal_receiver h sn di ns p keywords w0).2)
           = bus_add_match_calls (trace w0) ++ [rule]
     else
       daemon_matches (add_signal_receiver h sn di ns p keywords w0).2
         = daemon_matches w0) ∧
  daemon_matches w `prefix_of` daemon_matches (run_calls calls w) ∧
  length (daemon_matches (run_calls calls w))
    = (length (daemon_matches w) + subscribed calls w)%nat.
Proof.
  split; [intros; apply remove_signal_receiver_daemon|].
  split; [intros; apply add_signal_receiver_daemon|].
  destruct (run_calls_daemon calls w) as (added & -> & <-).
  split; [by exists added | by rewrite length_app].
Qed.

Lemma field_ok_spec (p m : option string) :
  field_ok p m = true ↔ ∀ v, p = Some v → m = Some v.
Proof.
  destruct p as [v|]; simpl.
  - rewrite bool_decide_eq_true. split; [by intros -> ? [= <-] | auto].
  - split; [by intros | done].
Qed.

Lemma args_ok_spec (pm : option (gmap Z pyval)) (args : list pyval) :
  args_ok pm args = true ↔
  ∀ d i v, pm = Some d → d !! i = Some v → 0 ≤ i ∧ args !! Z.to_nat i = Some v.
Proof.
  destruct pm as [d|]; simpl; [|split; [by intros | done]].
  rewrite forallb_forall. split.
  - intros Hall d' i v [= <-] Hi.
    apply elem_of_map_to_list, list_elem_of_In, Hall in Hi.
    unfold arg_ok in Hi. simpl in Hi.
    apply andb_true_iff in Hi as [Hi1 Hi2].
    apply Z.leb_le in Hi1. by apply bool_decide_eq_true in Hi2.
  - intros Hall [i v] Hin.
    apply list_elem_of_In, elem_of_map_to_list in Hin.
    destruct (Hall d i v eq_refl Hin) as [Hi1 Hi2].
    unfold arg_ok. simpl. apply andb_true_iff. split.
    + by apply Z.leb_le.
    + by apply bool_decide_eq_true.
Qed.

Lemma matches_spec (pat probe : SignalMatchRule) (args : list pyval) :
  matches pat probe args = true ↔
  (∀ v, signal_name pat = Some v → signal_name probe = Some v) ∧
  (∀ v, interface pat = Some v → interface probe = Some v) ∧
  (∀ v, sender pat = Some v → sender probe = Some v) ∧
  (∀ v, path pat = Some v → path probe = Some v) ∧
  (∀ d i v, positional_matches pat = Some d → d !! i = Some v →
     0 ≤ i ∧ args !! Z.to_nat i = Some v).
Proof.
  unfold matches. rewrite !andb_true_iff, !field_ok_spec, args_ok_spec. tauto.
Qed.

(** C3. A stored pattern matches a probe exactly when each filter field it
    has is present and equal in the probe and each positional constraint it
    records is met by the message's arguments; on a signal message
    [_signal_func] builds the probe from the message's member, interface,
    sender and path, and the callbacks invoked are exactly the callbacks of
    the stored patterns that match, in the order stored. *)
Theorem signal_dispatch_calls_matching_callbacks (message : Message) (w : world) :
  get_type message = MESSAGE_TYPE_SIGNAL →
  let probe :=
    SignalMatchRule_init (get_member message) (get_interface message)
                         (get_sender message) (get_path message) in
  let args := get_args_list message in
  (∀ pat, matches pat probe args = true ↔
     (∀ v, signal_name pat = Some v → get_member message = Some v) ∧
     (∀ v, interface pat = Some v → get_interface message = Some v) ∧
     (∀ v, sender pat = Some v → get_sender message = Some v) ∧
     (∀ v, path pat = Some v → get_path message = Some v) ∧
     (∀ d i v, positional_matches pat = Some d → d !! i = Some v →
        0 ≤ i ∧ args !! Z.to_nat i = Some v)) ∧
  ∃ calls,
    _signal_func message w =
      (Return None,
       {| _match_rule_tree := _match_rule_tree w;
          daemon_matches := daemon_matches w;
          trace := trace w ++ EvTreeExec probe message :: calls |}) ∧
    calls = flat_map (fun pat => calls_of pat message)
              (List.filter (fun pat => matches pat probe args) (_match_rule_tree w)) ∧
    ∀ h a kwargs, EvCall h a kwargs ∈ calls ↔
      ∃ pat, pat ∈ _match_rule_tree w ∧ matches pat probe args = true ∧
        h ∈ callbacks pat ∧ a = args ∧ kwargs = call_kwargs pat message.
Proof.
  intros Hty probe args. split; [intros pat; apply matches_spec|].
  eexists. split; [|split; [reflexivity|]].
  - unfold _signal_func. rewrite decide_False by (intros Hne; by apply Hne).
    reflexivity.
  - intros h a kwargs. rewrite list_elem_of_In, in_flat_map. split.
    + intros (pat & Hpat & Hcall). apply filter_In in Hpat as [Hin Hm].
      unfold calls_of in Hcall. apply in_map_iff in Hcall as (h' & [= <- <- <-] & Hh).
      exists pat. by rewrite !list_elem_of_In.
    + intros (pat & Hin & Hm & Hh & -> & ->). exists pat. split.
      * apply filter_In. by rewrite <- list_elem_of_In.
      * unfold calls_of. apply in_map_iff. exists h.
        by rewrite <- list_elem_of_In.
Qed.

End Receivers.


Section Construction.
Context `{Bindings} `{MainLoop}.
Import BusClass.

(** A shared instance of the asked type is returned as it is. *)
Lemma Bus_new_shared t m b p :
  _shared_instances p !! t = Some b → Bus_new t m false p = (Return b, p).
Proof. intros Hb. unfold Bus_new. simpl. by rewrite Hb. Qed.

(** What a construction does to the registry: nothing, or it stores the
    fresh object under a valid type that had no entry. *)
Lemma Bus_new_registry t m pr p :
  (next_id p ≤ next_id (Bus_new t m pr p).2)%nat ∧
  (_shared_instances (Bus_new t m pr p).2 = _shared_instances p ∨
   (pr = false ∧ _shared_instances p !! t = None ∧ is_Some (subclass_of t) ∧
    (Bus_new t m pr p).1 = Return (next_id p) ∧
    next_id (Bus_new t m pr p).2 = S (next_id p) ∧
    _shared_instances (Bus_new t m pr p).2 = <[t := next_id p]> (_shared_instances p))).
Proof.
  new_cases; (split; [lia|]); auto.
  right. destruct pr; simplify_eq/=. eauto 10.
Qed.

(** What a construction that returns has done. *)
Lemma Bus_new_return t m pr p b :
  (Bus_new t m pr p).1 = Return b →
  (pr = false ∧ _shared_instances p !! t = Some b ∧ (Bus_new t m pr p).2 = p) ∨
  (b = next_id p ∧ next_id (Bus_new t m pr p).2 = S b ∧
   _shared_instances (Bus_new t m pr p).2 =
     if pr then _shared_instances p else <[t := b]> (_shared_instances p)).
Proof.
  new_cases; intros [= <-]; destruct pr; simplify_eq/=; auto.
Qed.

Lemma run_app l1 l2 p : run (l1 ++ l2) p = run l2 (run l1 p).
Proof. apply fold_left_app. Qed.

(** As long as [b] is not collected, it stays the shared instance of its
    type. *)
Lemma run_action_keeps_shared t b a p :
  a ≠ Collect b →
  _shared_instances p !! t = Some b →
  _shared_instances (run_action p a) !! t = Some b.
Proof.
  intros Ha Hb. destruct a as [t' m' pr'|o]; simpl.
  - destruct (Bus_new_registry t' m' pr' p) as [_ [->|(_ & Hnone & _ & _ & _ & ->)]];
      [done|].
    rewrite lookup_insert_ne; [done|]. intros ->. congruence.
  - apply map_lookup_filter_Some. split; [done|]. simpl. congruence.
Qed.

Lemma run_keeps_shared t b l p :
  Collect b ∉ l →
  _shared_instances p !! t = Some b →
  _shared_instances (run l p) !! t = Some b.
Proof.
  revert p. induction l as [|a l IH]; intros p Hl Hb; [done|].
  apply not_elem_of_cons in Hl as [Ha Hl]. simpl.
  apply IH; [done|]. apply run_action_keeps_shared; [congruence|done].
Qed.

Lemma run_action_allocated a p : allocated p → allocated (run_action p a).
Proof.
  intros Hp k o. destruct a as [t m pr|o']; simpl.
  - destruct (Bus_new_registry t m pr p) as [Hle [->|(_ & _ & _ & _ & Hn & ->)]].
    + intros Ho%Hp. lia.
    + rewrite Hn. rewrite lookup_insert. case_decide.
      * intros [= <-]. lia.
      * intros Ho%Hp. lia.
  - intros [Ho _]%map_lookup_filter_Some. simpl. by apply (Hp k o).
Qed.

Lemma run_allocated l p : allocated p → allocated (run l p).
Proof.
  revert p. induction l as [|a l IH]; intros p Hp; [done|].
  simpl. apply IH, run_action_allocated, Hp.
Qed.

Lemma initial_allocated : allocated initial.
Proof. intros k o. unfold initial. simpl. by rewrite lookup_empty. Qed.

Lemma run_action_unshared b a p : unshared b p → unshared b (run_action p a).
Proof.
  intros [Hlt Hp]. unfold unshared. destruct a as [t m pr|o']; cbn [run_action].
  - destruct (Bus_new_registry t m pr p) as [Hle [->|(_ & _ & _ & _ & Hn & ->)]].
    + split; [lia|done].
    + split; [lia|]. intros k. rewrite lookup_insert. case_decide.
      * intros [= <-]. lia.
      * apply Hp.
  - split; [done|]. intros k [Ho _]%map_lookup_filter_Some. by apply (Hp k).
Qed.

Lemma run_unshared b l p : unshared b p → unshared b (run l p).
Proof.
  revert p. induction l as [|a l IH]; intros p Hp; [done|].
  simpl. apply IH, run_action_unshared, Hp.
Qed.

Lemma run_action_keys_valid a p : keys_valid p → keys_valid (run_action p a).
Proof.
  intros Hp k o. destruct a as [t m pr|o']; simpl.
  - destruct (Bus_new_registry t m pr p) as [_ [->|(_ & _ & Hsub & _ & _ & ->)]].
    + apply Hp.
    + rewrite lookup_insert. case_decide; [by intros; subst | apply Hp].
  - intros [Ho _]%map_lookup_filter_Some. by apply (Hp k o).
Qed.

Lemma run_keys_valid l p : keys_valid p → keys_valid (run l p).
Proof.
  revert p. induction l as [|a l IH]; intros p Hp; [done|].
  simpl. apply IH, run_action_keys_valid, Hp.
Qed.

Lemma initial_keys_valid : keys_valid initial.
Proof. intros k o. unfold initial. simpl. by rewrite lookup_empty. Qed.

Lemma subclass_of_None t :
  t ≠ BUS_SESSION → t ≠ BUS_SYSTEM → t ≠ BUS_STARTER → subclass_of t = None.
Proof. intros. unfold subclass_of. by rewrite !decide_False. Qed.

(** C10. In a process that has done any constructions and collections so
    far, constructing a [Bus] with a [bus_type] that is none of
    [TYPE_SESSION], [TYPE_SYSTEM], [TYPE_STARTER] raises [ValueError] and
    leaves the whole process state as it was: the registry is unchanged and
    no connection was asked of the transport. *)
Theorem invalid_bus_type_raises_ValueError
    (before : list action) (bus_type : Z) (use_default_mainloop private : bool) :
  bus_type ≠ BUS_SESSION → bus_type ≠ BUS_SYSTEM → bus_type ≠ BUS_STARTER →
  Bus_new bus_type use_default_mainloop private (run before initial) =
    (Raise (ValueError ("invalid bus_type " +:+ str (VInt bus_type))),
     run before initial).
Proof.
  intros H1 H2 H3.
  pose proof (subclass_of_None bus_type H1 H2 H3) as Hsub.
  pose proof (run_keys_valid before initial initial_keys_valid) as Hkeys.
  unfold Bus_new. rewrite Hsub.
  destruct (if negb private then _ else _) as [o|] eqn:Ho; [|done].
  destruct private; simpl in Ho; [done|].
  apply Hkeys in Ho. rewrite Hsub in Ho. by destruct Ho.
Qed.

End Construction.

(** * Concrete runs *)

Section Runs.

Example int_accepts :
  int "12" = Some 12 ∧ int " 7 " = Some 7 ∧ int "+3" = Some 3 ∧
  int "007" = Some 7 ∧ int "-1" = Some (-1) ∧ int "- 1" = Some (-1) ∧
  int " + 4 " = Some 4.
Proof. repeat split. Qed.

Example int_refuses :
  int "" = None ∧ int "x" = None ∧ int "1.5" = None ∧ int "1 2" = None ∧
  int "-" = None ∧ int "- " = None ∧ int "+-1" = None ∧ int "1L" = None.
Proof. repeat split. Qed.

Example create_args_dict_ok :
  _create_args_dict [("arg0", VStr "x"); ("sender_keyword", VStr "who"); ("arg2", VInt 5)]
    = Return (Some (<[2 := VInt 5]> {[ 0 := VStr "x" ]})).
Proof. reflexivity. Qed.

Example create_args_dict_no_arg :
  _create_args_dict [("path_keyword", VStr "where")] = Return None.
Proof. reflexivity. Qed.

Example create_args_dict_malformed :
  _create_args_dict [("argx", VStr "x")] = Raise (TypeError "Invalid arg index x").
Proof. reflexivity. Qed.

Example repr_on_changed :
  repr Sample.on_changed = "type='signal',member='Changed',sender=':1.5',arg0='x'".
Proof. reflexivity. Qed.

(** Positional constraints compare exactly: a missing argument, another
    case and another type are all rejected. *)
Example positional_exactness :
  let probe := SignalMatchRule_init (Some "Changed") None (Some ":1.5") None in
  matches Sample.on_changed probe [VStr "x"] = true ∧
  matches Sample.on_changed probe [] = false ∧
  matches Sample.on_changed probe [VStr "X"] = false ∧
  matches Sample.on_changed probe [VInt 0] = false.
Proof. repeat split. Qed.

(** Removing handler 1 from the pattern that holds 1 and 2 leaves handler 2;
    removing by the filter alone drops the entry. *)
Example selective_removal :
  let key := add_args_match {[ 0 := VStr "x" ]}
               (SignalMatchRule_init (Some "Changed") None (Some ":1.5") None) in
  map callbacks (tree_remove (add_handler 1%nat key) [Sample.on_changed; Sample.on_renamed])
    = [[2%nat]; [3%nat]] ∧
  map callbacks (tree_remove key [Sample.on_changed; Sample.on_renamed]) = [[3%nat]].
Proof. split; reflexivity. Qed.

(** C1, as the spec states it, fails: with a transport that rejects the
    rule, the call raises the transport's exception and the pattern is in the
    local index all the same, inserted before the registration was tried. *)
Lemma rejected_rule_stays_in_index :
  let r := @add_signal_receiver Sample.rejecting Sample.resolver
             1%nat (Some "Changed") None None None [] Sample.empty_world in
  r.1 = Raise (DBusException "MatchRuleInvalid") ∧
  _match_rule_tree r.2 ≠ _match_rule_tree Sample.empty_world ∧
  ∃ rule, _match_rule_tree r.2 = [rule] ∧
    trace r.2 = [EvTreeAdd rule; EvBusAddMatch "type='signal',member='Changed'"].
Proof.
  cbv zeta. split; [reflexivity|]. split; [done|].
  eexists. split; reflexivity.
Qed.

Lemma add_signal_receiver_inserts_then_registers_witness :
  ∃ rule,
    subscription_of rule 1%nat (Some "Changed") None (Some ":1.5") None [] None ∧
    let r := @add_signal_receiver Sample.rejecting Sample.resolver
               1%nat (Some "Changed") None (Some "org.example.Bar") None []
               Sample.empty_world in
    trace r.2 = [EvGetNameOwner "org.example.Bar"]
                  ++ [EvTreeAdd rule; EvBusAddMatch (repr rule)] ∧
    _match_rule_tree r.2 = [rule] ∧
    r.1 = Raise (DBusException "MatchRuleInvalid") ∧ daemon_matches r.2 = [].
Proof.
  apply (@add_signal_receiver_inserts_then_registers Sample.rejecting Sample.resolver
           1%nat (Some "Changed") None (Some "org.example.Bar") None (Some ":1.5")
           [] None Sample.empty_world
           (emit (EvGetNameOwner "org.example.Bar") Sample.empty_world));
    reflexivity.
Defined.

(** C2, as the spec states it, fails: with an unknown keyword the call on a
    name without owner raises [TypeError], not the error of the resolution,
    and the resolution is not even tried. *)
Lemma unowned_name_with_unknown_keyword :
  let r := @add_signal_receiver Sample.accepting Sample.resolver
             1%nat None None (Some "org.example.Foo") None [("bogus", VStr "x")]
             Sample.empty_world in
  is_well_known (Some "org.example.Foo") = true ∧
  @GetNameOwner Sample.resolver "org.example.Foo" = Raise (DBusException "NameHasNoOwner") ∧
  r.1 = Raise (TypeError "Unknown keyword bogus") ∧
  r.1 ≠ Raise (DBusException "NameHasNoOwner") ∧
  trace r.2 = [].
Proof. cbv zeta. repeat split; try reflexivity. done. Qed.

Lemma unowned_name_fails_subscribe_witness :
  let r := @add_signal_receiver Sample.accepting Sample.resolver
             1%nat None None (Some "org.example.Foo") None [("arg0", VStr "x")]
             Sample.empty_world in
  _match_rule_tree r.2 = [] ∧ daemon_matches r.2 = [] ∧
  bus_add_match_calls (trace r.2) = [] ∧
  r = (Raise (DBusException "NameHasNoOwner"),
       emit (EvGetNameOwner "org.example.Foo") Sample.empty_world).
Proof.
  apply (@unowned_name_fails_subscribe Sample.accepting Sample.resolver
           1%nat None None None "org.example.Foo" [("arg0", VStr "x")]
           (DBusException "NameHasNoOwner") Sample.empty_world);
    reflexivity.
Defined.

(** C4, as the spec states it, fails: the empty string does not begin
    with [:], yet it fails the test [named_service and ...] like [None]; no
    name is resolved and the pattern and the removal key carry the empty
    string itself as sender. *)
Lemma empty_named_service_not_resolved :
  let r := @add_signal_receiver Sample.accepting Sample.resolver
             1%nat (Some "Changed") None (Some "") None [] Sample.empty_world in
  let r' := @remove_signal_receiver Sample.resolver Sample.plain_functions
              (Some 1%nat) (Some "Changed") None (Some "") None [] Sample.empty_world in
  startswith "" ":" = false ∧
  @GetNameOwner Sample.resolver "" = Raise (DBusException "NameHasNoOwner") ∧
  r.1 = Return () ∧
  (∃ rule, _match_rule_tree r.2 = [rule] ∧ sender rule = Some "" ∧
           trace r.2 = [EvTreeAdd rule; EvBusAddMatch (repr rule)]) ∧
  (∃ key, r'.1 = Return () ∧ trace r'.2 = [EvTreeRemove key] ∧ sender key = Some "").
Proof.
  cbv zeta. split; [reflexivity|]. split; [reflexivity|]. split; [reflexivity|].
  split; eexists; repeat split.
Qed.

(** A callable whose truth value is false is left out of the removal key,
    as when no handler is given. *)
Example falsy_handler_left_out :
  let r := @remove_signal_receiver Sample.resolver Sample.falsy_two
             (Some 2%nat) (Some "Changed") None (Some ":1.5") None
             [("arg0", VStr "x")] Sample.empty_world in
  ∃ key, trace r.2 = [EvTreeRemove key] ∧ callbacks key = [] ∧
         sender key = Some ":1.5".
Proof. cbv zeta. eexists. repeat split. Qed.

Lemma sender_is_resolved_owner_witness :
  (∃ rule, sender rule = Some ":1.5" ∧
     let r := @add_signal_receiver Sample.accepting Sample.resolver
                1%nat (Some "Changed") None (Some "org.example.Bar") None []
                Sample.empty_world in
     _match_rule_tree r.2 = [rule] ∧
     trace r.2 = [EvGetNameOwner "org.example.Bar"; EvTreeAdd rule;
                  EvBusAddMatch (repr rule)]) ∧
  (∃ key, sender key = Some ":1.5" ∧
     @remove_signal_receiver Sample.resolver Sample.plain_functions
       (Some 1%nat) (Some "Changed") None (Some "org.example.Bar") None []
       Sample.empty_world =
       (Return (),
        {| _match_rule_tree := tree_remove key [];
           daemon_matches := [];
           trace := [EvGetNameOwner "org.example.Bar"; EvTreeRemove key] |})) ∧
  (startswith ":1.5" ":" = true → ":1.5" ≠ "org.example.Bar").
Proof.
  apply (@sender_is_resolved_owner Sample.accepting Sample.resolver Sample.plain_functions
           1%nat (Some 1%nat) (Some "Changed") None None "org.example.Bar" ":1.5"
           [] None Sample.empty_world);
    reflexivity.
Defined.

Lemma unknown_keyword_raises_TypeError_witness :
  "bogus" ∈ [("arg0", VStr "x"); ("bogus", VInt 3)].*1 ∧ unknown_keyword "bogus" ∧
  (∃ msg, @add_signal_receiver Sample.accepting Sample.resolver
            1%nat None None (Some "org.example.Bar") None
            [("arg0", VStr "x"); ("bogus", VInt 3)] Sample.empty_world
          = (Raise (TypeError msg), Sample.empty_world)) ∧
  (∃ msg, @remove_signal_receiver Sample.resolver Sample.plain_functions
            None None None (Some "org.example.Bar") None
            [("arg0", VStr "x"); ("bogus", VInt 3)] Sample.empty_world
          = (Raise (TypeError msg), Sample.empty_world)).
Proof.
  assert ("bogus" ∈ [("arg0", VStr "x"); ("bogus", VInt 3)].*1) as Hin.
  { simpl. apply list_elem_of_further, list_elem_of_here. }
  assert (unknown_keyword "bogus") as Hunk.
  { unfold unknown_keyword. split; [reflexivity | split; discriminate]. }
  split; [exact Hin|]. split; [exact Hunk|].
  apply (@unknown_keyword_raises_TypeError Sample.accepting Sample.resolver Sample.plain_functions
           [("arg0", VStr "x"); ("bogus", VInt 3)] "bogus" 1%nat None None None
           (Some "org.example.Bar") None Sample.empty_world Hin Hunk).
Defined.

Lemma signal_func_ignores_non_signals_witness :
  get_type Sample.method_call ≠ @MESSAGE_TYPE_SIGNAL Sample.accepting ∧
  @_signal_func Sample.accepting Sample.method_call Sample.empty_world
    = (Return (Some 1), Sample.empty_world).
Proof.
  assert (get_type Sample.method_call ≠ @MESSAGE_TYPE_SIGNAL Sample.accepting) as Hty.
  { simpl. discriminate. }
  split; [exact Hty|].
  apply (@signal_func_ignores_non_signals Sample.accepting Sample.method_call
           Sample.empty_world Hty).
Defined.

Lemma signal_dispatch_calls_matching_callbacks_witness :
  get_type Sample.signal = @MESSAGE_TYPE_SIGNAL Sample.accepting ∧
  ∃ probe,
    @_signal_func Sample.accepting Sample.signal Sample.subscribed_world =
      (Return None,
       {| _match_rule_tree := _match_rule_tree Sample.subscribed_world;
          daemon_matches := daemon_matches Sample.subscribed_world;
          trace := [EvTreeExec probe Sample.signal;
                    EvCall 1%nat [VStr "x"; VInt 1] [];
                    EvCall 2%nat [VStr "x"; VInt 1] []] |}).
Proof.
  split; [reflexivity|].
  destruct (@signal_dispatch_calls_matching_callbacks Sample.accepting
              Sample.signal Sample.subscribed_world eq_refl)
    as (_ & calls & Heq & Hcalls & _).
  eexists. rewrite Heq, Hcalls. reflexivity.
Defined.

End Runs.

Section ConstructionRuns.
Import BusClass.

(** A private construction after a shared one of the same type: a new
    object, and the registry still maps the type to the shared one. *)
Example private_after_shared :
  let p1 := (@Bus_new Sample.accepting Sample.no_mainloop 0 true false initial).2 in
  let r := @Bus_new Sample.accepting Sample.no_mainloop 0 true true p1 in
  _shared_instances p1 !! 0 = Some 0%nat ∧
  r.1 = Return 1%nat ∧
  _shared_instances r.2 = _shared_instances p1.
Proof. repeat split. Qed.

(** Once the shared object is collected, the next construction makes and
    registers a new one. *)
Example shared_after_collection :
  let p1 := (@Bus_new Sample.accepting Sample.no_mainloop 0 true false initial).2 in
  let r := @Bus_new Sample.accepting Sample.no_mainloop 0 true false
             (@collect 0%nat p1) in
  r.1 = Return 1%nat ∧ _shared_instances r.2 !! 0 = Some 1%nat.
Proof. repeat split. Qed.

Lemma invalid_bus_type_raises_ValueError_witness :
  let before := [New 0 true false; New 1 true true] in
  3 ≠ @BUS_SESSION Sample.accepting ∧ 3 ≠ @BUS_SYSTEM Sample.accepting ∧
  3 ≠ @BUS_STARTER Sample.accepting ∧
  @Bus_new Sample.accepting Sample.no_mainloop 3 true false
      (@run Sample.accepting Sample.no_mainloop before initial)
    = (Raise (ValueError "invalid bus_type 3"),
       @run Sample.accepting Sample.no_mainloop before initial).
Proof.
  cbv zeta.
  assert (3 ≠ @BUS_SESSION Sample.accepting) as H1 by (simpl; discriminate).
  assert (3 ≠ @BUS_SYSTEM Sample.accepting) as H2 by (simpl; discriminate).
  assert (3 ≠ @BUS_STARTER Sample.accepting) as H3 by (simpl; discriminate).
  split; [exact H1|]. split; [exact H2|]. split; [exact H3|].
  apply (@invalid_bus_type_raises_ValueError Sample.accepting Sample.no_mainloop
           [New 0 true false; New 1 true true] 3 true false H1 H2 H3).
Defined.

End ConstructionRuns.

(** * Further properties of the keyword parsing *)

Section CreateArgsDictMore.

Lemma arg_items_cons k v rest :
  arg_items ((k, v) :: rest) =
    if startswith k "arg" then
      match int (slice_from 3 k) with
      | Some num => (num, v) :: arg_items rest
      | None => arg_items rest
      end
    else arg_items rest.
Proof.
  unfold arg_items. cbn [omap list_omap fst snd].
  destruct (startswith k "arg"); [|done]. by destruct (int _).
Qed.

Lemma default_dict_truth (acc : option (gmap Z pyval)) :
  (if dict_truth acc then default ∅ acc else ∅) = default ∅ acc.
Proof.
  destruct acc as [m|]; simpl; [|done]. by case_bool_decide; subst.
Qed.

(** The loop of [_create_args_dict] inserts the positional constraints one
    after the other. *)
Lemma create_args_dict_loop_value items acc d :
  _create_args_dict_loop items acc = Return d →
  d = foldl (fun (a : option (gmap Z pyval)) nv => Some (<[nv.1 := nv.2]> (default ∅ a))) acc (arg_items items).
Proof.
  revert acc. induction items as [|[k v] rest IH]; intros acc.
  - by intros [= <-].
  - cbn [_create_args_dict_loop]. rewrite arg_items_cons.
    destruct (startswith k "arg").
    + destruct (int (slice_from 3 k)) as [n|]; [|done].
      rewrite default_dict_truth. apply IH.
    + case_bool_decide; [apply IH | done].
Qed.

Lemma foldl_insert_Some (l : list (Z * pyval)) (m : gmap Z pyval) :
  foldl (fun (a : option (gmap Z pyval)) nv => Some (<[nv.1 := nv.2]> (default ∅ a))) (Some m) l
    = Some (list_to_map (reverse l) ∪ m).
Proof.
  revert m. induction l as [|[n v] l IH]; intros m.
  - simpl. by rewrite (left_id_L ∅ (∪)).
  - cbn [foldl default fst snd]. rewrite IH, reverse_cons, list_to_map_app.
    simpl. rewrite insert_empty, <- (assoc_L (∪)).
    by rewrite <- insert_union_singleton_l.
Qed.

Lemma foldl_insert_None (l : list (Z * pyval)) :
  foldl (fun (a : option (gmap Z pyval)) nv => Some (<[nv.1 := nv.2]> (default ∅ a))) None l
    = match l with
      | [] => None
      | _ :: _ => Some (list_to_map (reverse l) : gmap Z pyval)
      end.
Proof.
  destruct l as [|[n v] l]; [done|].
  cbn [foldl default fst snd]. rewrite foldl_insert_Some, reverse_cons, list_to_map_app.
  simpl. by rewrite insert_empty.
Qed.

Lemma create_args_dict_loop_outcome (items : list (string * pyval))
    (acc : option (gmap Z pyval)) :
  match _create_args_dict_loop items acc with
  | Return _ => Forall acceptable_keyword items.*1
  | Raise e => (∃ msg, e = TypeError msg) ∧ ¬ Forall acceptable_keyword items.*1
  end.
Proof.
  revert acc. induction items as [|[k v] rest IH]; intros acc.
  - simpl. constructor.
  - cbn [_create_args_dict_loop]. rewrite fmap_cons. cbn [fst].
    destruct (startswith k "arg") eqn:Harg.
    + destruct (int (slice_from 3 k)) as [n|] eqn:Hint.
      * specialize (IH (Some (<[n:=v]> (if dict_truth acc then default ∅ acc else ∅)))).
        destruct (_create_args_dict_loop rest _).
        -- constructor; [|done]. unfold acceptable_keyword. by rewrite Harg, Hint.
        -- destruct IH as [Hmsg Hnot]. split; [done|].
           intros Hall. apply Hnot. by apply Forall_cons in Hall as [_ ?].
      * split; [eauto|]. intros [Hk _]%Forall_cons.
        unfold acceptable_keyword in Hk. rewrite Harg, Hint in Hk. by destruct Hk.
    + case_bool_decide as Hkw.
      * specialize (IH acc). destruct (_create_args_dict_loop rest acc).
        -- constructor; [|done]. unfold acceptable_keyword. by rewrite Harg.
        -- destruct IH as [Hmsg Hnot]. split; [done|].
           intros Hall. apply Hnot. by apply Forall_cons in Hall as [_ ?].
      * split; [eauto|]. intros [Hk _]%Forall_cons.
        unfold acceptable_keyword in Hk. by rewrite Harg in Hk.
Qed.

Lemma create_args_dict_acceptable keywords d :
  _create_args_dict keywords = Return d → Forall acceptable_keyword keywords.*1.
Proof.
  intros Hd. pose proof (create_args_dict_loop_outcome keywords None) as Ho.
  unfold _create_args_dict in Hd. by rewrite Hd in Ho.
Qed.

Lemma acceptable_create_args_dict keywords :
  Forall acceptable_keyword keywords.*1 → ∃ d, _create_args_dict keywords = Return d.
Proof.
  intros Hall. pose proof (create_args_dict_loop_outcome keywords None) as Ho.
  unfold _create_args_dict. destruct (_create_args_dict_loop keywords None); [eauto|].
  by destruct Ho.
Qed.

Lemma create_args_dict_list_to_map keywords d :
  _create_args_dict keywords = Return d →
  d = match arg_items keywords with
      | [] => None
      | l => Some (list_to_map (reverse l) : gmap Z pyval)
      end.
Proof.
  intros Hd%create_args_dict_loop_value. rewrite Hd, foldl_insert_None.
  by destruct (arg_items keywords).
Qed.

Lemma elem_of_arg_items keywords n v :
  (n, v) ∈ arg_items keywords ↔
  ∃ k, (k, v) ∈ keywords ∧ startswith k "arg" = true ∧ int (slice_from 3 k) = Some n.
Proof.
  unfold arg_items. rewrite list_elem_of_omap. split.
  - intros ([k v'] & Hin & Hf). cbn [fst snd] in Hf.
    destruct (startswith k "arg") eqn:Harg; [|done].
    destruct (int (slice_from 3 k)) as [n'|] eqn:Hint; [|done].
    cbn [fmap option_fmap option_map] in Hf. injection Hf as <- <-. eauto.
  - intros (k & Hin & Harg & Hint). exists (k, v). split; [done|].
    cbn [fst snd]. by rewrite Harg, Hint.
Qed.

(** X1. [_create_args_dict] returns exactly when every keyword is
    [sender_keyword], [path_keyword] or [arg] followed by something [int]
    reads; otherwise what it raises is a [TypeError]. *)
Theorem create_args_dict_returns_iff (keywords : list (string * pyval)) :
  ((∃ d, _create_args_dict keywords = Return d) ↔
   Forall acceptable_keyword keywords.*1) ∧
  (∀ e, _create_args_dict keywords = Raise e → ∃ msg, e = TypeError msg).
Proof.
  split; [split|].
  - intros [d Hd]. by eapply create_args_dict_acceptable.
  - apply acceptable_create_args_dict.
  - intros e He. by eapply create_args_dict_loop_raises.
Qed.

(** X2. When [_create_args_dict] returns, it returns [None] if no keyword
    is a positional constraint, and otherwise the dictionary holding, for
    each index named, the value of the last keyword naming it in iteration
    order. *)
Theorem create_args_dict_value (keywords : list (string * pyval))
    (d : option (gmap Z pyval)) :
  _create_args_dict keywords = Return d →
  d = match arg_items keywords with
      | [] => None
      | l => Some (list_to_map (reverse l) : gmap Z pyval)
      end.
Proof.
  intros Hd. apply create_args_dict_loop_value in Hd.
  rewrite foldl_insert_None in Hd. rewrite Hd.
  by destruct (arg_items keywords).
Qed.

(** X3. When [_create_args_dict] returns, the result is [None] exactly when
    no keyword starts with [arg]; a dictionary it returns is never empty,
    and its keys are exactly the indices read from the keywords that start
    with [arg]. *)
Theorem create_args_dict_keys (keywords : list (string * pyval))
    (d : option (gmap Z pyval)) :
  _create_args_dict keywords = Return d →
  (d = None ↔ ∀ k, k ∈ keywords.*1 → startswith k "arg" = false) ∧
  (∀ m, d = Some m →
     m ≠ ∅ ∧
     ∀ n, is_Some (m !! n) ↔
          ∃ k v, (k, v) ∈ keywords ∧ startswith k "arg" = true ∧
                 int (slice_from 3 k) = Some n).
Proof.
  intros Hd. pose proof (create_args_dict_acceptable _ _ Hd) as Hall.
  apply create_args_dict_list_to_map in Hd.
  assert (∀ n, n ∈ (arg_items keywords).*1 ↔
            ∃ k v, (k, v) ∈ keywords ∧ startswith k "arg" = true ∧
                   int (slice_from 3 k) = Some n) as Hdom.
  { intros n. rewrite list_elem_of_fmap. split.
    - intros ([n' v] & -> & Hin). apply elem_of_arg_items in Hin as (k & ?). eauto.
    - intros (k & v & Hin). exists (n, v). split; [done|].
      apply elem_of_arg_items. eauto. }
  split.
  - split.
    + intros ->. intros k Hk. destruct (startswith k "arg") eqn:Harg; [|done].
      apply list_elem_of_fmap in Hk as ([k' v] & -> & Hin). simpl in Harg.
      rewrite Forall_forall in Hall.
      assert (acceptable_keyword k') as Hacc.
      { apply Hall, list_elem_of_fmap. by exists (k', v). }
      unfold acceptable_keyword in Hacc. rewrite Harg in Hacc.
      destruct Hacc as [n Hn].
      assert ((n, v) ∈ arg_items keywords) as Hnv by (apply elem_of_arg_items; eauto).
      destruct (arg_items keywords); [by apply elem_of_nil in Hnv | done].
    + intros Hno. destruct (arg_items keywords) as [|[n v] l] eqn:Hitems; [done|].
      assert ((n, v) ∈ arg_items keywords) as Hnv by (rewrite Hitems; left).
      apply elem_of_arg_items in Hnv as (k & Hin & Harg & _).
      rewrite Hno in Harg; [done|]. apply list_elem_of_fmap. by exists (k, v).
  - intros m ->. destruct (arg_items keywords) as [|[n0 v0] l] eqn:Hitems; [done|].
    injection Hd as ->.
    assert (∀ n, is_Some ((list_to_map (reverse ((n0, v0) :: l)) : gmap Z pyval) !! n)
                 ↔ n ∈ ((n0, v0) :: l).*1) as Hlook.
    { intros n. rewrite <- not_eq_None_Some, <- not_elem_of_list_to_map.
      rewrite fmap_reverse, elem_of_reverse. split; [|tauto].
      intros Hnn. by destruct (decide (n ∈ ((n0, v0) :: l).*1)). }
    split.
    + intros Hempty.
      assert (is_Some ((list_to_map (reverse ((n0, v0) :: l)) : gmap Z pyval) !! n0)) as Hs.
      { apply Hlook. rewrite fmap_cons. left. }
      rewrite Hempty, lookup_empty in Hs. by destruct Hs.
    + intros n. rewrite Hlook. apply Hdom.
Qed.

(** X4. The iteration order of the keyword dictionary does not decide
    whether [_create_args_dict] returns; and when no two keywords name the
    same index, it does not change the dictionary returned either. *)
Theorem create_args_dict_order_independent (keywords keywords' : list (string * pyval)) :
  keywords ≡ₚ keywords' →
  ((∃ d, _create_args_dict keywords = Return d) ↔
   (∃ d, _create_args_dict keywords' = Return d)) ∧
  (NoDup (arg_items keywords).*1 →
   ∀ d, _create_args_dict keywords = Return d → _create_args_dict keywords' = Return d).
Proof.
  intros Hperm.
  assert (Forall acceptable_keyword keywords.*1 ↔ Forall acceptable_keyword keywords'.*1)
    as Hacc by (by rewrite Hperm).
  split.
  - split; intros [d Hd%create_args_dict_acceptable];
      apply acceptable_create_args_dict; by apply Hacc.
  - intros Hnodup d Hd.
    destruct (acceptable_create_args_dict keywords') as [d' Hd'].
    { apply Hacc. by eapply create_args_dict_acceptable. }
    rewrite Hd'. f_equal.
    apply create_args_dict_list_to_map in Hd, Hd'.
    assert (arg_items keywords ≡ₚ arg_items keywords') as Hitems.
    { unfold arg_items. by rewrite Hperm. }
    destruct (arg_items keywords) as [|x l] eqn:Hl.
    + apply Permutation_nil_l in Hitems. by rewrite <- Hitems in Hd'; subst.
    + destruct (arg_items keywords') as [|x' l'] eqn:Hl'.
      { by apply Permutation_nil_r in Hitems. }
      subst d d'. f_equal. apply list_to_map_proper.
      * by rewrite fmap_reverse, reverse_Permutation, <- Hitems.
      * by rewrite !reverse_Permutation.
Qed.

Lemma digit_chars_value (d : Decimal.uint) (acc : Z) :
  digits acc (list_ascii_of_string (DecimalString.NilEmpty.string_of_uint d))
    = Some (decimal_value acc d).
Proof.
  revert acc. induction d as [|d IH|d IH|d IH|d IH|d IH|d IH|d IH|d IH|d IH|d IH];
    intros acc; [done|..];
    cbn [DecimalString.NilEmpty.string_of_uint list_ascii_of_string digits decimal_value];
    match goal with
    | |- context [digit ?c] =>
        let r := eval vm_compute in (digit c) in change (digit c) with r
    end; cbv iota; rewrite ?Z.add_0_r; apply IH.
Qed.

Lemma decimal_value_pos (d : Decimal.uint) (acc : positive) :
  decimal_value (Z.pos acc) d = Z.pos (Pos.of_uint_acc d acc).
Proof.
  revert acc. induction d as [|d IH|d IH|d IH|d IH|d IH|d IH|d IH|d IH|d IH|d IH];
    intros acc; [done|..];
    cbn [decimal_value Pos.of_uint_acc]; rewrite <- IH; f_equal; lia.
Qed.

Lemma decimal_value_of_uint (d : Decimal.uint) :
  decimal_value 0 d = Z.of_N (Pos.of_uint d).
Proof.
  induction d as [|d IH|d IH|d IH|d IH|d IH|d IH|d IH|d IH|d IH|d IH];
    [done|..]; cbn [decimal_value Pos.of_uint]; [exact IH|..];
    cbn [Z.of_N]; rewrite <- decimal_value_pos; f_equal.
Qed.

Lemma digit_chars_no_space (d : Decimal.uint) :
  Forall (fun c => isspace c = false)
         (list_ascii_of_string (DecimalString.NilEmpty.string_of_uint d)).
Proof.
  induction d; cbn [DecimalString.NilEmpty.string_of_uint list_ascii_of_string];
    constructor; try done.
Qed.

Lemma lstrip_no_space (l : list ascii) :
  Forall (fun c => isspace c = false) l → lstrip l = l.
Proof. destruct l as [|c l]; [done|]. intros [Hc _]%Forall_cons. simpl. by rewrite Hc. Qed.

Lemma strip_no_space (l : list ascii) :
  Forall (fun c => isspace c = false) l → strip l = l.
Proof.
  intros Hl. unfold strip. rewrite (lstrip_no_space l Hl).
  rewrite lstrip_no_space; [apply rev_involutive|].
  apply Forall_forall. intros c Hc. rewrite Forall_forall in Hl.
  apply Hl, list_elem_of_In, in_rev. by apply list_elem_of_In.
Qed.

Lemma to_uint_not_Nil (p : positive) : Pos.to_uint p ≠ Decimal.Nil.
Proof.
  intros Hnil. pose proof (DecimalPos.Unsigned.of_to p) as Hp.
  rewrite Hnil in Hp. discriminate.
Qed.

(** Reading back the decimal text of an integer gives the integer. *)
Lemma int_str (n : Z) : int (str (VInt n)) = Some n.
Proof.
  destruct n as [|p|p]; [reflexivity|..]; unfold str, Z.to_int,
    DecimalString.NilZero.string_of_int, DecimalString.NilZero.string_of_uint.
  - pose proof (to_uint_not_Nil p) as Hnil.
    pose proof (digit_chars_value (Pos.to_uint p) 0) as Hval.
    pose proof (digit_chars_no_space (Pos.to_uint p)) as Hsp.
    rewrite decimal_value_of_uint, DecimalPos.Unsigned.of_to in Hval.
    assert (int (DecimalString.NilEmpty.string_of_uint (Pos.to_uint p)) = Some (Z.pos p))
      as Hint.
    { unfold int. rewrite strip_no_space by done.
      destruct (Pos.to_uint p); [done|..];
        cbn [DecimalString.NilEmpty.string_of_uint list_ascii_of_string] in *;
        (rewrite decide_False by discriminate);
        (rewrite decide_False by discriminate); exact Hval. }
    by destruct (Pos.to_uint p).
  - pose proof (to_uint_not_Nil p) as Hnil.
    pose proof (digit_chars_value (Pos.to_uint p) 0) as Hval.
    pose proof (digit_chars_no_space (Pos.to_uint p)) as Hsp.
    rewrite decimal_value_of_uint, DecimalPos.Unsigned.of_to in Hval.
    assert (int (String "-" (DecimalString.NilEmpty.string_of_uint (Pos.to_uint p)))
            = Some (Z.neg p)) as Hint.
    { unfold int. cbn [list_ascii_of_string].
      rewrite strip_no_space by (by constructor).
      rewrite decide_True by done. rewrite (lstrip_no_space _ Hsp).
      destruct (Pos.to_uint p); [done|..];
        cbn [DecimalString.NilEmpty.string_of_uint list_ascii_of_string] in *;
        unfold unsigned_int; rewrite Hval; reflexivity. }
    by destruct (Pos.to_uint p).
Qed.

(** X5. When [_create_args_dict] returns, the value of a keyword [arg]
    followed by an integer is found at that index of the dictionary, unless
    a keyword met later in the iteration names the same index. *)
Theorem later_keyword_wins
    (pre post : list (string * pyval)) (key : string) (value : pyval) (num : Z)
    (d : option (gmap Z pyval)) :
  startswith key "arg" = true →
  int (slice_from 3 key) = Some num →
  (∀ k v, (k, v) ∈ post → startswith k "arg" = true →
     int (slice_from 3 k) ≠ Some num) →
  _create_args_dict (pre ++ (key, value) :: post) = Return d →
  ∃ m, d = Some m ∧ m !! num = Some value.
Proof.
  intros Harg Hint Hpost. unfold _create_args_dict.
  rewrite create_args_dict_loop_app.
  destruct (_create_args_dict_loop pre None) as [acc|e]; [|done].
  cbn [_create_args_dict_loop]. rewrite Harg, Hint.
  apply create_args_dict_loop_keeps; [|done]. by rewrite lookup_insert_eq.
Qed.

(** X6. For every integer [n], the keyword [arg] followed by the decimal
    text of [n] is read back as the index [n]: alone, it makes
    [_create_args_dict] return the dictionary that maps [n] to the value
    given. *)
Theorem canonical_arg_keyword_accepted (n : Z) (v : pyval) :
  _create_args_dict [("arg" +:+ str (VInt n), v)] = Return (Some {[ n := v ]}).
Proof.
  assert (∀ s, startswith ("arg" +:+ s) "arg" = true) as Hpre by (by intros []).
  assert (∀ s, slice_from 3 ("arg" +:+ s) = s) as Hcut by (by intros []).
  unfold _create_args_dict. cbn [_create_args_dict_loop].
  rewrite Hpre, Hcut, int_str. simpl. by rewrite insert_empty.
Qed.

End CreateArgsDictMore.

(** * Further properties of subscribing and unsubscribing *)

Section ReceiversMore.
Context `{Bindings} `{NameResolver} `{Callables}.

Lemma create_args_dict_loop_without_binding items acc :
  _create_args_dict_loop (without_binding_keywords items) acc
    = _create_args_dict_loop items acc.
Proof.
  revert acc. induction items as [|[k v] rest IH]; intros acc; [done|].
  unfold without_binding_keywords in *. rewrite filter_cons. cbn [fst].
  destruct (decide (¬ (k = "sender_keyword" ∨ k = "path_keyword"))) as [Hk|Hk].
  - cbn [_create_args_dict_loop]. destruct (startswith k "arg").
    + destruct (int _); [apply IH | done].
    + case_bool_decide; [apply IH | done].
  - rewrite IH. apply dec_stable in Hk.
    cbn [_create_args_dict_loop].
    destruct Hk as [-> | ->]; reflexivity.
Qed.

(** X7. [remove_signal_receiver] lets [sender_keyword] and [path_keyword]
    through and ignores them: the call does the same with and without
    them. *)
Theorem remove_signal_receiver_ignores_binding_keywords
    (ho : option handler) (sn di ns p : option string)
    (keywords : list (string * pyval)) (w : world) :
  remove_signal_receiver ho sn di ns p (without_binding_keywords keywords) w
    = remove_signal_receiver ho sn di ns p keywords w.
Proof.
  unfold remove_signal_receiver, _create_args_dict.
  by rewrite create_args_dict_loop_without_binding.
Qed.

(** X8. Unsubscribing by a well-known name without owner fails with the
    error of the name resolution when the keywords are accepted, and with
    the [TypeError] of [_create_args_dict] otherwise; either way nothing is
    removed from the match index. *)
Theorem unowned_name_fails_unsubscribe
    (ho : option handler) (sn di p : option string) (s : string)
    (keywords : list (string * pyval)) (e : exn) (w : world) :
  is_well_known (Some s) = true →
  GetNameOwner s = Raise e →
  let r := remove_signal_receiver ho sn di (Some s) p keywords w in
  _match_rule_tree r.2 = _match_rule_tree w ∧
  daemon_matches r.2 = daemon_matches w ∧
  match _create_args_dict keywords with
  | Return _ => r = (Raise e, emit (EvGetNameOwner s) w)
  | Raise e' => r = (Raise e', w)
  end.
Proof.
  intros Hwk Hown. cbv zeta.
  destruct (_create_args_dict keywords) as [d|e'] eqn:Hk.
  - rewrite (resolve_raises_in_remove ho sn di (Some s) p keywords d e w
               (emit (EvGetNameOwner s) w)); [done|done|].
    rewrite resolve_well_known by done. by rewrite Hown.
  - by rewrite (remove_signal_receiver_bad_keywords ho sn di (Some s) p keywords e' w).
Qed.

Lemma resolutions_app (a b : list event) :
  resolutions (a ++ b) = resolutions a ++ resolutions b.
Proof. apply flat_map_app. Qed.

Lemma resolve_resolutions ns w :
  resolutions (trace (resolve ns w).2) =
    resolutions (trace w) ++
      match ns with
      | Some name => if is_well_known ns then [name] else []
      | None => []
      end.
Proof.
  destruct ns as [s|]; [|by rewrite app_nil_r].
  destruct (is_well_known (Some s)) eqn:Hwk.
  - rewrite resolve_well_known by done.
    destruct (GetNameOwner s); simpl; by rewrite resolutions_app.
  - rewrite resolve_not_well_known by done. by rewrite app_nil_r.
Qed.

(** X9. Each of the two methods asks [GetNameOwner] at most once: exactly
    once, for the name given, when the keywords are accepted and the name is
    not empty and does not begin with [:]; not at all otherwise. *)
Theorem receivers_resolve_at_most_once
    (h : handler) (ho : option handler) (sn di ns p : option string)
    (keywords : list (string * pyval)) (w : world) :
  let asked :=
    match _create_args_dict keywords, ns with
    | Return _, Some name => if is_well_known ns then [name] else []
    | _, _ => []
    end in
  resolutions (trace (add_signal_receiver h sn di ns p keywords w).2)
    = resolutions (trace w) ++ asked ∧
  resolutions (trace (remove_signal_receiver ho sn di ns p keywords w).2)
    = resolutions (trace w) ++ asked.
Proof.
  cbv zeta. pose proof (resolve_resolutions ns w) as Hres.
  destruct (_create_args_dict keywords) as [d|e] eqn:Hk.
  - destruct (resolve ns w) as [[ns'|e] w1] eqn:Hr; simpl in Hres.
    + destruct (add_signal_receiver_registers h sn di ns p keywords d ns' w w1 Hk Hr)
        as (rule & _ & ->).
      destruct (remove_signal_receiver_removes ho sn di ns p keywords d ns' w w1 Hk Hr)
        as (key & _ & ->).
      split.
      * destruct (bus_add_match _ _); simpl; rewrite resolutions_app, Hres;
          simpl; rewrite app_nil_r; by destruct ns.
      * simpl. rewrite resolutions_app, Hres. simpl. rewrite app_nil_r. by destruct ns.
    + rewrite (resolve_raises_in_add h sn di ns p keywords d e w w1) by done.
      rewrite (resolve_raises_in_remove ho sn di ns p keywords d e w w1) by done.
      simpl. rewrite Hres. by destruct ns.
  - rewrite (add_signal_receiver_bad_keywords h sn di ns p keywords e w) by done.
    rewrite (remove_signal_receiver_bad_keywords ho sn di ns p keywords e w) by done.
    simpl. by rewrite app_nil_r.
Qed.

Lemma resolve_outcome_independent ns w w' : (resolve ns w).1 = (resolve ns w').1.
Proof.
  destruct (is_well_known ns) eqn:Hwk.
  - destruct ns as [s|]; [|done]. rewrite !resolve_well_known by done.
    by destruct (GetNameOwner s).
  - by rewrite !resolve_not_well_known.
Qed.

(** X10. With the same arguments, and whatever the state each call starts
    from, the key [remove_signal_receiver] removes by has the filter fields
    and positional constraints of the pattern [add_signal_receiver] inserted;
    its only callback is the handler given, when one is given and its truth
    value is true, and it has none otherwise. *)
Theorem removal_key_matches_subscription
    (h : handler) (ho : option handler) (sn di ns p : option string)
    (keywords : list (string * pyval)) (w w' : world) :
  returned (add_signal_receiver h sn di ns p keywords w) = true →
  ∃ rule key,
    _match_rule_tree (add_signal_receiver h sn di ns p keywords w).2
      = _match_rule_tree w ++ [rule] ∧
    (∃ w1', remove_signal_receiver ho sn di ns p keywords w' =
       (Return (),
        {| _match_rule_tree := tree_remove key (_match_rule_tree w');
           daemon_matches := daemon_matches w';
           trace := trace w1' ++ [EvTreeRemove key] |})) ∧
    signal_name key = signal_name rule ∧ interface key = interface rule ∧
    sender key = sender rule ∧ path key = path rule ∧
    positional_matches key = positional_matches rule ∧
    callbacks key = match ho with
                    | Some f => if truth_value f then [f] else []
                    | None => []
                    end.
Proof.
  intros Hret.
  destruct (_create_args_dict keywords) as [d|e] eqn:Hk; last first.
  { by rewrite (add_signal_receiver_bad_keywords h sn di ns p keywords e w) in Hret. }
  destruct (resolve ns w) as [[ns'|e] w1] eqn:Hr; last first.
  { by rewrite (resolve_raises_in_add h sn di ns p keywords d e w w1) in Hret. }
  destruct (resolve ns w') as [o' w1'] eqn:Hr'.
  pose proof (resolve_outcome_independent ns w w') as Hsame.
  rewrite Hr, Hr' in Hsame. simpl in Hsame. subst o'.
  destruct (add_signal_receiver_registers h sn di ns p keywords d ns' w w1 Hk Hr)
    as (rule & Hrule & Hadd).
  destruct (remove_signal_receiver_removes ho sn di ns p keywords d ns' w' w1' Hk Hr')
    as (key & Hkey & Hrem).
  destruct (resolve_frame ns w) as (Htree & _). rewrite Hr in Htree. simpl in Htree.
  destruct (resolve_frame ns w') as (Htree' & Hd' & _). rewrite Hr' in Htree', Hd'.
  simpl in Htree', Hd'.
  exists rule, key. split.
  - rewrite Hadd. rewrite <- Htree. by destruct (bus_add_match _ _).
  - split; [exists w1'; by rewrite Hrem, Htree', Hd'|].
    destruct Hrule as (-> & -> & -> & -> & -> & _).
    by destruct Hkey as (-> & -> & -> & -> & -> & ->).
Qed.

Lemma subscription_of_unique r r' h sn di ns p keywords d :
  subscription_of r h sn di ns p keywords d →
  subscription_of r' h sn di ns p keywords d → r = r'.
Proof.
  destruct r, r'. unfold subscription_of. simpl.
  intros (-> & -> & -> & -> & -> & -> & -> & ->) (-> & -> & -> & -> & -> & -> & -> & ->).
  done.
Qed.

Lemma unique_name_not_well_known u :
  startswith u ":" = true → is_well_known (Some u) = false.
Proof.
  destruct u as [|c u]; [done|]. simpl. case_decide; [|done]. subst.
  by rewrite bool_decide_eq_true_2.
Qed.

(** X11. When the daemon answers a well-known name with a unique name,
    subscribing by the alias and subscribing by that unique name end the
    same way, insert the same pattern and register the same rule; the alias
    only costs the call to [GetNameOwner]. *)
Theorem alias_and_owner_subscribe_alike
    (h : handler) (sn di p : option string) (s u : string)
    (keywords : list (string * pyval)) (w : world) :
  is_well_known (Some s) = true →
  GetNameOwner s = Return u →
  startswith u ":" = true →
  let r1 := add_signal_receiver h sn di (Some s) p keywords w in
  let r2 := add_signal_receiver h sn di (Some u) p keywords w in
  r1.1 = r2.1 ∧
  _match_rule_tree r1.2 = _match_rule_tree r2.2 ∧
  daemon_matches r1.2 = daemon_matches r2.2 ∧
  bus_add_match_calls (trace r1.2) = bus_add_match_calls (trace r2.2).
Proof.
  intros Hwk Hown Hu%unique_name_not_well_known. cbv zeta.
  destruct (_create_args_dict keywords) as [d|e] eqn:Hk; last first.
  { by rewrite !(add_signal_receiver_bad_keywords h sn di _ p keywords e w). }
  assert (resolve (Some s) w = (Return (Some u), emit (EvGetNameOwner s) w)) as Hr1.
  { rewrite resolve_well_known by done. by rewrite Hown. }
  pose proof (resolve_not_well_known (Some u) w Hu) as Hr2.
  destruct (add_signal_receiver_registers h sn di (Some s) p keywords d _ w _ Hk Hr1)
    as (rule & Hrule & ->).
  destruct (add_signal_receiver_registers h sn di (Some u) p keywords d _ w _ Hk Hr2)
    as (rule' & Hrule' & ->).
  rewrite (subscription_of_unique rule' rule _ _ _ _ _ _ _ Hrule' Hrule).
  cbn [emit daemon_matches _match_rule_tree trace].
  destruct (bus_add_match (daemon_matches w) (repr rule)); cbn [fst snd];
    (repeat split);
    cbn [trace]; rewrite !bus_add_match_calls_app; simpl; by rewrite app_nil_r.
Qed.

End ReceiversMore.

(** * Further properties of construction *)

Lemma size_three (a b c : Z) : (size ({[a; b; c]} : gset Z) ≤ 3)%nat.
Proof.
  rewrite (size_union_alt (C := gset Z)), (size_union_alt (C := gset Z)), size_singleton.
  pose proof (subseteq_size (C := gset Z) ({[b]} ∖ {[a]}) {[b]}) as Hb.
  pose proof (subseteq_size (C := gset Z) ({[c]} ∖ ({[a]} ∪ {[b]})) {[c]}) as Hc.
  rewrite (size_singleton (C := gset Z)) in Hb, Hc.
  assert (({[b]} ∖ {[a]} : gset Z) ⊆ {[b]}) as Sb
    by (by intros x [Hx _]%elem_of_difference).
  assert (({[c]} ∖ ({[a]} ∪ {[b]}) : gset Z) ⊆ {[c]}) as Sc
    by (by intros x [Hx _]%elem_of_difference).
  specialize (Hb Sb). specialize (Hc Sc). lia.
Qed.

Section ConstructionMore.
Context `{Bindings} `{MainLoop}.
Import BusClass.

(** The state after [Bus.__new__]: untouched, or one object allocated and
    one connection asked for, the object being live once the connection is
    there and registered when the construction is not private and
    returns. *)
Lemma Bus_new_state t m pr p :
  (Bus_new t m pr p).2 = p ∨
  ∃ sub, subclass_of t = Some sub ∧
    (pr = true ∨ _shared_instances p !! t = None) ∧
    next_id (Bus_new t m pr p).2 = S (next_id p) ∧
    bus_get_calls (Bus_new t m pr p).2 = bus_get_calls p ++ [(t, pr)] ∧
    ((heap (Bus_new t m pr p).2 = heap p ∧
      _shared_instances (Bus_new t m pr p).2 = _shared_instances p ∧
      ∃ e, (Bus_new t m pr p).1 = Raise e) ∨
     (∃ connection,
        heap (Bus_new t m pr p).2 =
          <[next_id p := {| _class := sub; _bus_type := t;
                            _match_rule_tree := []; _connection := connection |}]>
            (heap p) ∧
        ((_shared_instances (Bus_new t m pr p).2 = _shared_instances p ∧
          (pr = true ∨ ∃ e, (Bus_new t m pr p).1 = Raise e)) ∨
         (pr = false ∧ (Bus_new t m pr p).1 = Return (next_id p) ∧
          _shared_instances (Bus_new t m pr p).2
            = <[t := next_id p]> (_shared_instances p))))).
Proof.
  new_cases; auto; right; eexists; (split; [reflexivity|]);
    (split; [destruct pr; simplify_eq/=; auto|]);
    (split; [reflexivity|]); (split; [reflexivity|]).
  - right. eexists. split; [reflexivity|]. left. eauto.
  - right. eexists. split; [reflexivity|]. right. destruct pr; simplify_eq/=. auto.
  - right. eexists. split; [reflexivity|]. left. destruct pr; simplify_eq/=. auto.
  - left. eauto.
Qed.

Lemma run_action_well_formed a p : well_formed p → well_formed (run_action p a).
Proof.
  intros (Hal & Hha & Hty & Hsh). destruct a as [t m pr|o']; cbn [run_action].
  - destruct (Bus_new_state t m pr p)
      as [->|(sub & Hsub & Hfree & Hn & _ &
              [(Hheap & Hreg & _)|(conn & Hheap & [[Hreg _]|(_ & _ & Hreg)])])];
      [done|..]; unfold well_formed, allocated, heap_allocated, heap_typed, shared_typed;
      rewrite Hn, Hheap, Hreg.
    + repeat split.
      * intros k o Ho%Hal. lia.
      * intros o obj Ho%Hha. lia.
      * done.
      * done.
    + repeat split.
      * intros k o Ho%Hal. lia.
      * intros o obj [[<- <-]|[_ Ho%Hha]]%lookup_insert_Some; lia.
      * intros o obj [[<- <-]|[_ Ho]]%lookup_insert_Some; [done|by apply (Hty o)].
      * intros k o Ho. pose proof (Hal k o Ho). destruct (Hsh k o Ho) as (obj & ? & ?).
        exists obj. rewrite lookup_insert_ne by lia. done.
    + repeat split.
      * intros k o [[<- <-]|[_ Ho%Hal]]%lookup_insert_Some; lia.
      * intros o obj [[<- <-]|[_ Ho%Hha]]%lookup_insert_Some; lia.
      * intros o obj [[<- <-]|[_ Ho]]%lookup_insert_Some; [done|by apply (Hty o)].
      * intros k o [[<- <-]|[_ Ho]]%lookup_insert_Some.
        -- eexists. by rewrite lookup_insert_eq.
        -- pose proof (Hal k o Ho). destruct (Hsh k o Ho) as (obj & ? & ?).
           exists obj. rewrite lookup_insert_ne by lia. done.
  - unfold well_formed, allocated, heap_allocated, heap_typed, shared_typed, collect.
    cbn [_shared_instances heap next_id]. repeat split.
    + intros k o [Ho _]%map_lookup_filter_Some. by apply (Hal k o).
    + intros o obj [_ Ho]%lookup_delete_Some. by apply (Hha o obj).
    + intros o obj [_ Ho]%lookup_delete_Some. by apply (Hty o obj).
    + intros k o [Ho Hne]%map_lookup_filter_Some. simpl in Hne.
      destruct (Hsh k o Ho) as (obj & ? & ?). exists obj.
      by rewrite lookup_delete_ne.
Qed.

Lemma run_well_formed l p : well_formed p → well_formed (run l p).
Proof.
  revert p. induction l as [|a l IH]; intros p Hp; [done|].
  simpl. apply IH, run_action_well_formed, Hp.
Qed.

Lemma initial_well_formed : well_formed initial.
Proof.
  unfold well_formed, allocated, heap_allocated, heap_typed, shared_typed, initial.
  cbn [_shared_instances heap next_id].
  repeat split; intros ? ?; by rewrite lookup_empty.
Qed.

Lemma reachable_well_formed before : well_formed (run before initial).
Proof. apply run_well_formed, initial_well_formed. Qed.

(** The object a construction returns is live afterwards, with the bus type
    asked for and the class of that type. *)
Lemma Bus_new_returns_typed t m pr p b :
  well_formed p →
  (Bus_new t m pr p).1 = Return b →
  ∃ obj, heap (Bus_new t m pr p).2 !! b = Some obj ∧ _bus_type obj = t ∧
         subclass_of t = Some (_class obj).
Proof.
  intros Hwf Hret.
  pose proof (run_action_well_formed (New t m pr) p Hwf) as (_ & _ & Hty' & Hsh').
  cbn [run_action] in Hty', Hsh'.
  destruct (Bus_new_return t m pr p b Hret) as [(-> & Hb & Hsame)|(-> & Hn & Hreg)].
  - rewrite Hsame. destruct Hwf as (_ & _ & Hty & Hsh).
    destruct (Hsh t b Hb) as (obj & Hobj & <-). exists obj.
    split; [done|]. split; [done|]. by apply (Hty b).
  - destruct (Bus_new_state t m pr p)
      as [Hsame|(sub & Hsub & _ & _ & _ &
                 [(_ & _ & e & He)|(conn & Hheap & _)])].
    + rewrite Hsame in Hn. lia.
    + congruence.
    + eexists. rewrite Hheap, lookup_insert_eq. by repeat split.
Qed.

(** C8. In a process that has done any constructions and collections so
    far, take a construction that returns the object [b]; [b] is then a
    live object of the bus type asked for. If the construction was not
    private, [b] is the instance the registry holds for that type (a new
    object when the type had none), and as long as [b] is not collected the
    registry keeps it, every later non-private construction for the same
    type returns [b] itself and changes nothing, and no private construction
    returns [b]. If the construction was private, [b] is a new object, none
    of the instances the registry held; the registry is as it was, and
    whatever happens later the registry never holds [b]. *)
Theorem shared_instance_registry
    (before later : list action) (bus_type : Z) (m1 m2 private : bool) (b : nat) :
  let p := run before initial in
  let p1 := (Bus_new bus_type m1 private p).2 in
  (Bus_new bus_type m1 private p).1 = Return b →
  (∃ obj, heap p1 !! b = Some obj ∧ _bus_type obj = bus_type) ∧
  if private then
    heap p !! b = None ∧
    (∀ k, _shared_instances p !! k ≠ Some b) ∧
    _shared_instances p1 = _shared_instances p ∧
    (∀ k, _shared_instances (run later p1) !! k ≠ Some b)
  else
    _shared_instances p1 !! bus_type = Some b ∧
    (_shared_instances p !! bus_type = None → heap p !! b = None) ∧
    (Collect b ∉ later →
       _shared_instances (run later p1) !! bus_type = Some b ∧
       Bus_new bus_type m2 false (run later p1) = (Return b, run later p1) ∧
       ∀ t3 m3 b3, (Bus_new t3 m3 true (run later p1)).1 = Return b3 → b3 ≠ b).
Proof.
  intros p p1 Hret.
  pose proof (run_well_formed before initial initial_well_formed) as Hwf.
  fold p in Hwf.
  assert (well_formed p1) as Hwf1 by apply (run_action_well_formed (New _ _ _) p Hwf).
  split.
  { destruct (Bus_new_returns_typed _ _ _ _ _ Hwf Hret) as (obj & ? & ? & _). eauto. }
  destruct Hwf as (Hal & Hha & _). subst p1. destruct private.
  - destruct (Bus_new_return _ _ _ _ _ Hret) as [(? & _)|(-> & Hn & Hreg)]; [done|].
    assert (∀ k, _shared_instances p !! k ≠ Some (next_id p)) as Hfresh.
    { intros k Hk%Hal. lia. }
    split.
    { destruct (heap p !! next_id p) as [obj|] eqn:Ho; [|done]. apply Hha in Ho. lia. }
    split; [done|]. split; [done|].
    apply run_unshared. split; [lia|]. by rewrite Hreg.
  - assert (_shared_instances (Bus_new bus_type m1 false p).2 !! bus_type = Some b)
      as Hshared.
    { destruct (Bus_new_return _ _ _ _ _ Hret) as [(_ & Hb & ->)|(_ & _ & ->)];
        [done|]. by rewrite lookup_insert_eq. }
    split; [done|]. split.
    { intros Hnone.
      destruct (Bus_new_return _ _ _ _ _ Hret) as [(_ & Hb & _)|(-> & _)];
        [congruence|].
      destruct (heap p !! next_id p) as [obj|] eqn:Ho; [|done]. apply Hha in Ho. lia. }
    intros Hlater.
    pose proof (run_keeps_shared bus_type b later _ Hlater Hshared) as Hkept.
    split; [done|]. split; [by apply Bus_new_shared|].
    intros t3 m3 b3 Hret3.
    pose proof (run_well_formed later _ Hwf1) as (Hal' & _).
    destruct (Bus_new_return _ _ _ _ _ Hret3) as [(? & _)|(-> & _)]; [done|].
    apply Hal' in Hkept. lia.
Qed.

(** X12. A construction that raises, whatever the reason (bus type,
    transport, main-loop setup), leaves the registry of shared instances as
    it was. *)
Theorem failed_construction_registers_nothing
    (bus_type : Z) (use_default_mainloop private : bool) (p : process) (e : exn) :
  (Bus_new bus_type use_default_mainloop private p).1 = Raise e →
  _shared_instances (Bus_new bus_type use_default_mainloop private p).2
    = _shared_instances p.
Proof.
  intros Hraise.
  destruct (Bus_new_registry bus_type use_default_mainloop private p)
    as [_ [Hreg|(_ & _ & _ & Hret & _)]]; [done|congruence].
Qed.

(** X13. In a process that has done any constructions and collections so
    far, the object a construction returns is live, has the bus type asked
    for, and is an instance of the class that goes with that type. *)
Theorem constructed_instance_typed
    (before : list action) (bus_type : Z) (use_default_mainloop private : bool)
    (b : nat) :
  let r := Bus_new bus_type use_default_mainloop private (run before initial) in
  r.1 = Return b →
  ∃ obj, heap r.2 !! b = Some obj ∧ _bus_type obj = bus_type ∧
         subclass_of bus_type = Some (_class obj).
Proof.
  cbv zeta. intros Hret.
  apply Bus_new_returns_typed; [|exact Hret].
  apply run_well_formed, initial_well_formed.
Qed.

(** X14. The registry never shares one object under two bus types, and the
    object it holds for a type is a live object of that type. *)
Theorem shared_instances_distinct (before : list action) (k1 k2 : Z) (o : nat) :
  let p := run before initial in
  _shared_instances p !! k1 = Some o →
  (∃ obj, heap p !! o = Some obj ∧ _bus_type obj = k1) ∧
  (_shared_instances p !! k2 = Some o → k1 = k2).
Proof.
  cbv zeta. intros H1. destruct (reachable_well_formed before) as (_ & _ & _ & Hsh).
  destruct (Hsh k1 o H1) as (obj & Hobj & Hk1). split; [eauto|].
  intros H2. destruct (Hsh k2 o H2) as (obj' & Hobj' & Hk2). congruence.
Qed.

(** X15. The keys of the registry are among the three bus types, so it
    never holds more than three instances. *)
Theorem registry_at_most_three (before : list action) :
  let p := run before initial in
  (∀ k, is_Some (_shared_instances p !! k) →
     k = BUS_SESSION ∨ k = BUS_SYSTEM ∨ k = BUS_STARTER) ∧
  (size (_shared_instances p) ≤ 3)%nat.
Proof.
  cbv zeta. pose proof (run_keys_valid before initial initial_keys_valid) as Hkeys.
  assert (∀ k, is_Some (_shared_instances (run before initial) !! k) →
            k = BUS_SESSION ∨ k = BUS_SYSTEM ∨ k = BUS_STARTER) as Hk.
  { intros k [o Ho]. apply Hkeys in Ho as [sub Hsub]. unfold subclass_of in Hsub.
    repeat case_decide; auto. done. }
  split; [done|].
  rewrite <- (size_dom (D := gset Z)).
  transitivity (size ({[BUS_SESSION; BUS_SYSTEM; BUS_STARTER]} : gset Z)).
  - apply subseteq_size. intros k Hin%elem_of_dom. apply Hk in Hin.
    rewrite !elem_of_union, !elem_of_singleton. tauto.
  - apply size_three.
Qed.

(** X16. [__repr__] never reaches its failing assertion on a live bus
    object: it names the bus after the class of the object. *)
Theorem repr_of_constructed_bus (before : list action) (o : nat) (obj : BusObject) :
  heap (run before initial) !! o = Some obj →
  Bus_repr o obj =
    inr ("<dbus.Bus on " +:+
         match _class obj with
         | SessionBus => "SESSION"
         | SystemBus => "SYSTEM"
         | StarterBus => "STARTER"
         end +:+ " at " +:+ hex o +:+ ">").
Proof.
  intros Ho. destruct (reachable_well_formed before) as (_ & _ & Hty & _).
  specialize (Hty o obj Ho). unfold subclass_of in Hty. unfold Bus_repr.
  repeat case_decide; simplify_eq; by rewrite <- Hty.
Qed.

(** X17. In a process that has done any constructions and collections so
    far, a private construction, or a construction for a type that has no
    shared instance, returns an object that was not live before and that the
    registry did not hold. *)
Theorem fresh_construction
    (before : list action) (bus_type : Z) (use_default_mainloop private : bool)
    (b : nat) :
  let p := run before initial in
  (Bus_new bus_type use_default_mainloop private p).1 = Return b →
  private = true ∨ _shared_instances p !! bus_type = None →
  heap p !! b = None ∧ ∀ k, _shared_instances p !! k ≠ Some b.
Proof.
  cbv zeta. intros Hret Hfresh.
  destruct (reachable_well_formed before) as (Hal & Hha & _).
  destruct (Bus_new_return _ _ _ _ _ Hret) as [(-> & Hb & _)|(-> & _)].
  - destruct Hfresh; congruence.
  - split.
    + destruct (heap (run before initial) !! next_id (run before initial)) as [obj|] eqn:Ho;
        [|done]. apply Hha in Ho. lia.
    + intros k Hk%Hal. lia.
Qed.


(** X19. When the three bus type constants differ, [get_session],
    [get_system] and [get_starter] return live instances of [SessionBus],
    [SystemBus] and [StarterBus], each with its own bus type. *)
Theorem static_getters_classes (before : list action) (private : bool) (b : nat) :
  BUS_SESSION ≠ BUS_SYSTEM → BUS_SESSION ≠ BUS_STARTER → BUS_SYSTEM ≠ BUS_STARTER →
  let p := run before initial in
  ((get_session private p).1 = Return b →
     ∃ obj, heap (get_session private p).2 !! b = Some obj ∧
            _class obj = SessionBus ∧ _bus_type obj = BUS_SESSION) ∧
  ((get_system private p).1 = Return b →
     ∃ obj, heap (get_system private p).2 !! b = Some obj ∧
            _class obj = SystemBus ∧ _bus_type obj = BUS_SYSTEM) ∧
  ((get_starter private p).1 = Return b →
     ∃ obj, heap (get_starter private p).2 !! b = Some obj ∧
            _class obj = StarterBus ∧ _bus_type obj = BUS_STARTER).
Proof.
  intros H12 H13 H23. cbv zeta.
  pose proof (reachable_well_formed before) as Hwf.
  unfold get_session, get_system, get_starter, SessionBus_new, SystemBus_new,
    StarterBus_new.
  repeat split; intros Hret;
    destruct (Bus_new_returns_typed _ _ _ _ _ Hwf Hret) as (obj & Hobj & Hty & Hsub);
    exists obj; (split; [done|]); (split; [|done]);
    unfold subclass_of in Hsub; repeat case_decide; congruence.
Qed.

End ConstructionMore.

(** * Concrete runs of the further properties *)

Section MoreRuns.

Lemma create_args_dict_value_witness :
  let keywords := [("arg1", VStr "a"); ("sender_keyword", VStr "s"); ("arg01", VStr "b")] in
  _create_args_dict keywords = Return (Some {[ 1 := VStr "b" ]}) ∧
  Some ({[ 1 := VStr "b" ]} : gmap Z pyval) =
    match arg_items keywords with
    | [] => None
    | l => Some (list_to_map (reverse l) : gmap Z pyval)
    end.
Proof.
  cbv zeta.
  assert (_create_args_dict
            [("arg1", VStr "a"); ("sender_keyword", VStr "s"); ("arg01", VStr "b")]
          = Return (Some {[ 1 := VStr "b" ]})) as Hd by reflexivity.
  split; [exact Hd|].
  apply (create_args_dict_value _ _ Hd).
Defined.

Lemma create_args_dict_keys_witness :
  let keywords := [("arg2", VStr "a"); ("path_keyword", VStr "p")] in
  let m : gmap Z pyval := {[ 2 := VStr "a" ]} in
  _create_args_dict keywords = Return (Some m) ∧
  m ≠ ∅ ∧
  ∀ n, is_Some (m !! n) ↔
       ∃ k v, (k, v) ∈ keywords ∧ startswith k "arg" = true ∧
              int (slice_from 3 k) = Some n.
Proof.
  cbv zeta.
  assert (_create_args_dict [("arg2", VStr "a"); ("path_keyword", VStr "p")]
          = Return (Some {[ 2 := VStr "a" ]})) as Hd by reflexivity.
  split; [exact Hd|].
  apply (proj2 (create_args_dict_keys _ _ Hd) _ eq_refl).
Defined.

Lemma create_args_dict_order_independent_witness :
  let keywords := [("arg0", VStr "a"); ("arg1", VInt 7)] in
  let keywords' := [("arg1", VInt 7); ("arg0", VStr "a")] in
  keywords ≡ₚ keywords' ∧ NoDup (arg_items keywords).*1 ∧
  _create_args_dict keywords = Return (Some (<[1 := VInt 7]> {[ 0 := VStr "a" ]})) ∧
  _create_args_dict keywords' = Return (Some (<[1 := VInt 7]> {[ 0 := VStr "a" ]})).
Proof.
  cbv zeta.
  assert ([("arg0", VStr "a"); ("arg1", VInt 7)] ≡ₚ [("arg1", VInt 7); ("arg0", VStr "a")])
    as Hperm by apply perm_swap.
  assert (NoDup (arg_items [("arg0", VStr "a"); ("arg1", VInt 7)]).*1) as Hnodup.
  { change (NoDup [0; 1]). apply NoDup_cons. split.
    - intros Hin. apply list_elem_of_singleton in Hin. discriminate.
    - apply NoDup_singleton. }
  assert (_create_args_dict [("arg0", VStr "a"); ("arg1", VInt 7)]
          = Return (Some (<[1 := VInt 7]> {[ 0 := VStr "a" ]}))) as Hd by reflexivity.
  split; [exact Hperm|]. split; [exact Hnodup|]. split; [exact Hd|].
  apply (proj2 (create_args_dict_order_independent _ _ Hperm) Hnodup _ Hd).
Defined.

Lemma later_keyword_wins_witness :
  ∃ m, Some (<[2 := VInt 5]> ({[ 1 := VStr "b" ]} : gmap Z pyval)) = Some m ∧
       m !! 1 = Some (VStr "b").
Proof.
  apply (later_keyword_wins [("arg1", VStr "a")] [("arg2", VInt 5)] "arg01" (VStr "b") 1).
  - reflexivity.
  - reflexivity.
  - intros k v Hin _. apply list_elem_of_singleton in Hin.
    injection Hin as -> ->. discriminate.
  - reflexivity.
Defined.

Lemma unowned_name_fails_unsubscribe_witness :
  let r := @remove_signal_receiver Sample.resolver Sample.plain_functions
             (Some 1%nat) None None (Some "org.example.Foo") None [("arg0", VStr "x")]
             Sample.subscribed_world in
  _match_rule_tree r.2 = _match_rule_tree Sample.subscribed_world ∧
  daemon_matches r.2 = daemon_matches Sample.subscribed_world ∧
  r = (Raise (DBusException "NameHasNoOwner"),
       emit (EvGetNameOwner "org.example.Foo") Sample.subscribed_world).
Proof.
  apply (@unowned_name_fails_unsubscribe Sample.resolver Sample.plain_functions
           (Some 1%nat) None None None "org.example.Foo" [("arg0", VStr "x")]
           (DBusException "NameHasNoOwner") Sample.subscribed_world);
    reflexivity.
Defined.

Lemma removal_key_matches_subscription_witness :
  ∃ rule key,
    _match_rule_tree
      (@add_signal_receiver Sample.accepting Sample.resolver 1%nat (Some "Changed") None
         (Some "org.example.Bar") None [("arg0", VStr "x")] Sample.empty_world).2
      = _match_rule_tree Sample.empty_world ++ [rule] ∧
    (∃ w1', @remove_signal_receiver Sample.resolver Sample.plain_functions (Some 1%nat) (Some "Changed") None
              (Some "org.example.Bar") None [("arg0", VStr "x")] Sample.subscribed_world =
       (Return (),
        {| _match_rule_tree := tree_remove key (_match_rule_tree Sample.subscribed_world);
           daemon_matches := daemon_matches Sample.subscribed_world;
           trace := trace w1' ++ [EvTreeRemove key] |})) ∧
    signal_name key = signal_name rule ∧ interface key = interface rule ∧
    sender key = sender rule ∧ path key = path rule ∧
    positional_matches key = positional_matches rule ∧
    callbacks key = [1%nat].
Proof.
  apply (@removal_key_matches_subscription Sample.accepting Sample.resolver Sample.plain_functions
           1%nat (Some 1%nat) (Some "Changed") None (Some "org.example.Bar") None
           [("arg0", VStr "x")] Sample.empty_world Sample.subscribed_world).
  reflexivity.
Defined.

Lemma alias_and_owner_subscribe_alike_witness :
  let r1 := @add_signal_receiver Sample.accepting Sample.resolver 1%nat (Some "Changed")
              None (Some "org.example.Bar") None [("arg0", VStr "x")]
              Sample.subscribed_world in
  let r2 := @add_signal_receiver Sample.accepting Sample.resolver 1%nat (Some "Changed")
              None (Some ":1.5") None [("arg0", VStr "x")]
              Sample.subscribed_world in
  r1.1 = r2.1 ∧
  _match_rule_tree r1.2 = _match_rule_tree r2.2 ∧
  daemon_matches r1.2 = daemon_matches r2.2 ∧
  bus_add_match_calls (trace r1.2) = bus_add_match_calls (trace r2.2).
Proof.
  apply (@alias_and_owner_subscribe_alike Sample.accepting Sample.resolver
           1%nat (Some "Changed") None None "org.example.Bar" ":1.5"
           [("arg0", VStr "x")] Sample.subscribed_world);
    reflexivity.
Defined.

End MoreRuns.

Section MoreConstructionRuns.
Import BusClass.

Lemma shared_instance_registry_witness :
  let later := [New 1 true true; Collect 5%nat; New 1 true false] in
  let p1 := (@Bus_new Sample.accepting Sample.no_mainloop 0 true false initial).2 in
  let q := @run Sample.accepting Sample.no_mainloop later p1 in
  (@Bus_new Sample.accepting Sample.no_mainloop 0 true false initial).1 = Return 0%nat ∧
  (Collect 0%nat ∉ later) ∧
  _shared_instances p1 !! 0 = Some 0%nat ∧
  _shared_instances q !! 0 = Some 0%nat ∧
  @Bus_new Sample.accepting Sample.no_mainloop 0 false false q = (Return 0%nat, q) ∧
  ∀ t3 m3 b3,
    (@Bus_new Sample.accepting Sample.no_mainloop t3 m3 true q).1 = Return b3 →
    b3 ≠ 0%nat.
Proof.
  cbv zeta.
  assert (Collect 0%nat ∉ [New 1 true true; Collect 5%nat; New 1 true false]) as Hlater.
  { rewrite !not_elem_of_cons. repeat split; try discriminate. apply not_elem_of_nil. }
  split; [reflexivity|]. split; [exact Hlater|].
  destruct (@shared_instance_registry Sample.accepting Sample.no_mainloop
              [] [New 1 true true; Collect 5%nat; New 1 true false]
              0 true false false 0%nat eq_refl) as (_ & Hshared & _ & Hkeep).
  split; [exact Hshared|]. exact (Hkeep Hlater).
Defined.

Lemma failed_construction_registers_nothing_witness :
  let r := @Bus_new Sample.accepting Sample.failing_mainloop 0 true false initial in
  r.1 = Raise (DBusException "no main loop") ∧
  _shared_instances r.2 = _shared_instances initial.
Proof.
  cbv zeta. split; [reflexivity|].
  apply (@failed_construction_registers_nothing Sample.accepting Sample.failing_mainloop
           0 true false initial (DBusException "no main loop") eq_refl).
Defined.

Lemma constructed_instance_typed_witness :
  let r := @Bus_new Sample.accepting Sample.no_mainloop 1 true false
             (@run Sample.accepting Sample.no_mainloop [New 0 true false] initial) in
  r.1 = Return 1%nat ∧
  ∃ obj, heap r.2 !! 1%nat = Some obj ∧ _bus_type obj = 1 ∧
         @subclass_of Sample.accepting 1 = Some (_class obj).
Proof.
  cbv zeta. split; [reflexivity|].
  apply (@constructed_instance_typed Sample.accepting Sample.no_mainloop
           [New 0 true false] 1 true false 1%nat eq_refl).
Defined.

Lemma shared_instances_distinct_witness :
  let p := @run Sample.accepting Sample.no_mainloop
             [New 0 true false; New 1 true false] initial in
  _shared_instances p !! 0 = Some 0%nat ∧
  (∃ obj, heap p !! 0%nat = Some obj ∧ _bus_type obj = 0) ∧
  (_shared_instances p !! 1 = Some 0%nat → 0 = 1).
Proof.
  cbv zeta. split; [reflexivity|].
  apply (@shared_instances_distinct Sample.accepting Sample.no_mainloop
           [New 0 true false; New 1 true false] 0 1 0%nat eq_refl).
Defined.

Lemma repr_of_constructed_bus_witness :
  let obj := {| _class := SystemBus; _bus_type := 1;
                _match_rule_tree := []; _connection := 7%nat |} in
  heap (@run Sample.accepting Sample.no_mainloop
          [New 0 true false; New 1 true true] initial) !! 1%nat = Some obj ∧
  @Bus_repr Sample.accepting 1%nat obj = inr "<dbus.Bus on SYSTEM at 0x1>".
Proof.
  cbv zeta. split; [reflexivity|].
  apply (@repr_of_constructed_bus Sample.accepting Sample.no_mainloop
           [New 0 true false; New 1 true true] 1%nat _ eq_refl).
Defined.

Lemma fresh_construction_witness :
  let p := @run Sample.accepting Sample.no_mainloop [New 0 true false] initial in
  (@Bus_new Sample.accepting Sample.no_mainloop 0 true true p).1 = Return 1%nat ∧
  heap p !! 1%nat = None ∧ ∀ k, _shared_instances p !! k ≠ Some 1%nat.
Proof.
  cbv zeta. split; [reflexivity|].
  apply (@fresh_construction Sample.accepting Sample.no_mainloop
           [New 0 true false] 0 true true 1%nat eq_refl (or_introl eq_refl)).
Defined.

Lemma static_getters_classes_witness :
  let p := @run Sample.accepting Sample.no_mainloop [New 0 true false] initial in
  (@get_system Sample.accepting Sample.no_mainloop false p).1 = Return 1%nat ∧
  ∃ obj, heap (@get_system Sample.accepting Sample.no_mainloop false p).2 !! 1%nat
           = Some obj ∧
         _class obj = SystemBus ∧ _bus_type obj = 1.
Proof.
  cbv zeta. split; [reflexivity|].
  assert (@BUS_SESSION Sample.accepting ≠ @BUS_SYSTEM Sample.accepting) as H12
    by (simpl; discriminate).
  assert (@BUS_SESSION Sample.accepting ≠ @BUS_STARTER Sample.accepting) as H13
    by (simpl; discriminate).
  assert (@BUS_SYSTEM Sample.accepting ≠ @BUS_STARTER Sample.accepting) as H23
    by (simpl; discriminate).
  apply (proj1 (proj2 (@static_getters_classes Sample.accepting Sample.no_mainloop
                         [New 0 true false] false 1%nat H12 H13 H23)) eq_refl).
Defined.

End MoreConstructionRuns.
